(** * OS_lab2_Terminal: the job-control shell of [main.cpp]

    A shallow embedding of the shell's tokenizer, command registry, built-in
    handlers and process launcher, followed by the properties of the
    specification that were checked against it.

    The shell is a single control thread; the operating system (the result of
    [fork], whether [exec] replaces the image, the file system) is an
    environment the code only reads.  Handlers are state transformers over the
    job table and a trace of the system calls and prints they perform, and
    they end in one of four ways: they return, an exception escapes, the
    process image is replaced by [exec], or the behaviour is undefined. *)

From Stdlib Require Import ZArith Ascii String Lia.
From Equations.Prop Require Import Equations Logic.
From stdpp Require Import gmap strings list.

Local Open Scope string_scope.
Local Open Scope list_scope.
Local Open Scope Z_scope.

(** ** The error taxonomy: [enum class CommandError] *)

Inductive CommandError :=
| OK
| INVALID_ARGUMENT_NUMBER
| INVALID_ARGUMENT
| UNKNOWN_COMMAND
| INVALID_FILE_PATH
| UNABLE_TO_OPEN_NOTEPAD
| FORK_ERROR
| INVALID_PROCESS_INPUT
| INVALID_PID.

#[global] Instance CommandError_eq_dec : EqDecision CommandError.
Proof. solve_decision. Defined.

(** ** The tokenizer: [splitStringBySpace] *)

Module Tokenizer.

(** The characters [std::getline(iss, substring, delim)] extracts from a
    stream that has [s] left to read, and what is left afterwards: characters
    are taken up to the first [delim], which is consumed and not stored, or
    up to the end of the stream. *)
Fixpoint extract (delim : ascii) (s : string) : string * string :=
  match s with
  | EmptyString => (EmptyString, EmptyString)
  | String c rest =>
      if Ascii.eqb c delim then (EmptyString, rest)
      else let '(substring, rest') := extract delim rest in
           (String c substring, rest')
  end.

(** [std::getline] as a condition: at the end of the stream nothing is
    extracted, the fail bit is set and the loop condition is false ([None]);
    otherwise the extracted substring and the remaining stream. *)
Definition getline (delim : ascii) (iss : string) : option (string * string) :=
  match iss with
  | EmptyString => None
  | String _ _ => Some (extract delim iss)
  end.

(** [while (std::getline(iss, substring, ' ')) substrings.push_back(substring);] *)
Equations? split_loop (iss : string) (substrings : list string) : list string
  by wf (String.length iss) lt :=
  split_loop iss substrings with inspect (getline " " iss) := {
    | exist _ None _ => substrings
    | exist _ (Some (substring, iss')) Hget =>
        split_loop iss' (substrings ++ [substring]) }.
Proof.
  clear split_loop. destruct iss as [|c s]; [discriminate|].
  assert (extract " " (String c s) = (substring, iss')) as E
    by (unfold getline in Hget; congruence).
  clear Hget. revert c substring iss' E.
  induction s as [|d s IH]; intros c t r; simpl.
  - destruct (Ascii.eqb c " "); intros [= <- <-]; simpl; lia.
  - destruct (Ascii.eqb c " "); [intros [= <- <-]; simpl; lia|].
    specialize (IH d). simpl in IH.
    destruct (Ascii.eqb d " ").
    + intros [= <- <-]. simpl. lia.
    + destruct (extract " " s) as [t' r'].
      intros [= <- <-]. specialize (IH _ _ eq_refl). simpl in *. lia.
Qed.

Definition splitStringBySpace (inputString : string) : list string :=
  split_loop inputString [].

End Tokenizer.
Export Tokenizer.

(** ** Integer conversion: [std::stoi]

    [std::stoi] belongs to the C++ standard library, not to the shell; this is
    its documented behaviour in base 10: leading white space is skipped, an
    optional sign is read, then the longest run of decimal digits.  Without
    any digit it throws [std::invalid_argument]; a value that does not fit an
    [int] throws [std::out_of_range]; characters after the digits are
    ignored. *)

Inductive exn := invalid_argument | out_of_range.

#[global] Instance exn_eq_dec : EqDecision exn.
Proof. solve_decision. Defined.

Module Stoi.

Definition INT_MIN : Z := -2147483648.
Definition INT_MAX : Z := 2147483647.

Definition isspace (c : ascii) : bool :=
  let n := nat_of_ascii c in
  ((n =? 32) || ((9 <=? n) && (n <=? 13)))%nat.

Definition digit (c : ascii) : option Z :=
  let n := nat_of_ascii c in
  if ((48 <=? n) && (n <=? 57))%nat then Some (Z.of_nat n - 48) else None.

Fixpoint skip_spaces (s : string) : string :=
  match s with
  | String c rest => if isspace c then skip_spaces rest else s
  | EmptyString => s
  end.

(** The value of the longest prefix of digits, [None] when there is none. *)
Fixpoint digits (acc : option Z) (s : string) : option Z :=
  match s with
  | String c rest =>
      match digit c with
      | Some d => digits (Some (default 0 acc * 10 + d)) rest
      | None => acc
      end
  | EmptyString => acc
  end.

Definition signed (s : string) : bool * string :=
  match s with
  | String "-" rest => (true, rest)
  | String "+" rest => (false, rest)
  | _ => (false, s)
  end.

Definition stoi (str : string) : exn + Z :=
  let '(negative, body) := signed (skip_spaces str) in
  match digits None body with
  | None => inl invalid_argument
  | Some magnitude =>
      let value := if negative then - magnitude else magnitude in
      if (INT_MIN <=? value) && (value <=? INT_MAX) then inr value
      else inl out_of_range
  end.

End Stoi.
Export Stoi.

(** ** The world the handlers run in *)

(** What is written to standard output, by the statement that writes it. *)
Inductive output :=
| OutEraseLine                                   (* eraseLine() *)
| OutKill (command : string)                     (* printKill(command) *)
| OutKitten (command : string)                   (* printKitten(command) *)
| OutPids (listed : list Z)                      (* showPids *)
| OutDir (names : list string)                   (* listDirContent *)
| OutFile (path : string)                        (* std::cout << fin.rdbuf() *)
| OutNotepad (pid : Z)                           (* "Opened notepad with PID:" *)
| OutError (e : CommandError).                   (* getErrorMessage(e), in main *)

(** System calls and prints, in the order the process performs them.  A
    null pointer in an argument vector is [None]. *)
Inductive event :=
| EvFork (ret : Z)
| EvExec (file : string) (argv : list (option string))
| EvKill (pid : Z)                               (* kill(pid, SIGKILL) *)
| EvSetPriority (pid priority : Z)
| EvPrint (o : output).

(** The operating system as the control thread sees it. *)
Record Env := {
  fork_ret : nat -> Z;
    (* the value the n-th call of fork() returns to the process we follow *)
  exec_replaces : string -> list (option string) -> bool;
    (* whether execvp/execlp finds the program and replaces the image *)
  is_regular_file : string -> bool;
  ifstream_opens : string -> bool;
  current_dir : list string;
}.

(** [std::unordered_set<int> pids], with the launches and the calls made so
    far.  [launches] lists the argument vector and the priority of each
    invocation of the launcher [createProcess]. *)
Record State := {
  pids : gset Z;
  forks : nat;
  launches : list (list (option string) * Z);
  trace : list event;
}.

Definition initial : State :=
  {| pids := ∅; forks := 0; launches := []; trace := [] |}.

(** How a call ends. *)
Inductive outcome (A : Type) :=
| Ret (a : A)            (* it returns *)
| Throw (e : exn)        (* an exception leaves it *)
| Replaced               (* exec succeeded: this control path never returns *)
| Undefined.             (* undefined behaviour *)
Arguments Ret {A} a.
Arguments Throw {A} e.
Arguments Replaced {A}.
Arguments Undefined {A}.

Definition M (A : Type) : Type := State -> outcome A * State.

Definition ret {A} (a : A) : M A := fun st => (Ret a, st).

Definition bind {A B} (m : M A) (k : A -> M B) : M B :=
  fun st =>
    match m st with
    | (Ret a, st') => k a st'
    | (Throw e, st') => (Throw e, st')
    | (Replaced, st') => (Replaced, st')
    | (Undefined, st') => (Undefined, st')
    end.

Definition throw {A} (e : exn) : M A := fun st => (Throw e, st).
Definition undefined {A} : M A := fun st => (Undefined, st).

(** [try { body } catch (const std::out_of_range &) { handler }] *)
Definition try_catch_out_of_range {A} (body handler : M A) : M A :=
  fun st =>
    match body st with
    | (Throw out_of_range, st') => handler st'
    | r => r
    end.

Declare Scope shell_scope.
Delimit Scope shell_scope with shell.
Notation "x <- m ;; k" := (bind m (fun x => k))
  (at level 100, m at next level, right associativity) : shell_scope.
Notation "m ;; k" := (bind m (fun _ => k))
  (at level 100, right associativity) : shell_scope.
Local Open Scope shell_scope.

Definition emit (e : event) : M unit :=
  fun st => (Ret tt, {| pids := pids st; forks := forks st;
                        launches := launches st; trace := trace st ++ [e] |}).

Definition print (o : output) : M unit := emit (EvPrint o).

Definition get_pids : M (gset Z) := fun st => (Ret (pids st), st).

Definition set_pids (s : gset Z) : M unit :=
  fun st => (Ret tt, {| pids := s; forks := forks st;
                        launches := launches st; trace := trace st |}).

Definition record_launch (argv : list (option string)) (priority : Z) : M unit :=
  fun st => (Ret tt, {| pids := pids st; forks := forks st;
                        launches := launches st ++ [(argv, priority)];
                        trace := trace st |}).

Definition lift_stoi (s : string) : M Z :=
  match stoi s with
  | inr n => ret n
  | inl e => throw e
  end.

(** [v[i]] on a [std::vector]: out of bounds is undefined behaviour. *)
Definition index {A} (v : list A) (i : nat) : M A :=
  match v !! i with
  | Some x => ret x
  | None => undefined
  end.

(** [for (auto x : xs) body(x);] *)
Fixpoint for_each {A} (xs : list A) (body : A -> M unit) : M unit :=
  match xs with
  | [] => ret tt
  | x :: rest => body x ;; for_each rest body
  end.

(** ** The process launcher and the built-in handlers *)

Section Shell.

Variable env : Env.

Definition fork : M Z :=
  fun st =>
    let pid := fork_ret env (forks st) in
    (Ret pid, {| pids := pids st; forks := S (forks st);
                 launches := launches st;
                 trace := trace st ++ [EvFork pid] |}).

(** The [exec] family: the program name must not be null; on success the
    image is replaced and the call does not return, otherwise it returns. *)
Definition exec (file : option string) (argv : list (option string)) : M unit :=
  match file with
  | None => undefined
  | Some f =>
      emit (EvExec f argv) ;;
      if exec_replaces env f argv then (fun st => (Replaced, st)) else ret tt
  end.

(** [execvp(argv[0], argv)] *)
Definition execvp (file : option string) (argv : list (option string)) : M unit :=
  exec file argv.

(** [execlp(file, arg0, NULL)] *)
Definition execlp (file arg0 : string) : M unit :=
  exec (Some file) [Some arg0; None].

Definition kill_SIGKILL (pid : Z) : M unit := emit (EvKill pid).

Definition setpriority (pid priority : Z) : M unit :=
  emit (EvSetPriority pid priority).

Definition eraseLine : M unit := print OutEraseLine.
Definition printKitten (command : string) : M unit := print (OutKitten command).
Definition printKill (command : string) : M unit := print (OutKill command).

(** [argv[i] = tokens[i].c_str()] for each token, then [argv[size] = nullptr]. *)
Definition tokensToArgv (tokens : list string) : list (option string) :=
  (Some <$> tokens) ++ [None].

Definition createProcess (tokens : list string) (priority : Z) : M CommandError :=
  let argv := tokensToArgv tokens in
  record_launch argv priority ;;
  pid <- fork ;;
  if pid <? 0 then ret FORK_ERROR
  else if pid =? 0 then
    argv0 <- index argv 0 ;;
    execvp argv0 argv ;;
    ret INVALID_PROCESS_INPUT
  else
    s <- get_pids ;;
    set_pids ({[pid]} ∪ s) ;;
    setpriority pid priority ;;
    ret OK.

(** The loop of [createProcesses], from the tokens still to visit, with the
    locals [currentTokens] and [e]. *)
Fixpoint createProcesses_loop (tokens currentTokens : list string)
    (e : CommandError) : M CommandError :=
  match tokens with
  | [] => createProcess currentTokens 0
  | arg :: rest =>
      locals <- (if String.eqb arg "&&"
                 then e' <- createProcess currentTokens 0 ;; ret (e', [])
                 else ret (e, currentTokens ++ [arg])) ;;
      let '(e, currentTokens) := locals in
      if decide (e <> OK) then ret e
      else createProcesses_loop rest currentTokens e
  end.

Definition createProcesses (tokens : list string) : M CommandError :=
  createProcesses_loop tokens [] OK.

Definition killCommand (arguments : list string) : M CommandError :=
  if decide (length arguments <> 1%nat) then ret INVALID_ARGUMENT_NUMBER
  else
    a0 <- index arguments 0 ;;
    pid <- lift_stoi a0 ;;
    s <- get_pids ;;
    if decide (pid ∉ s) then ret INVALID_PID
    else
      eraseLine ;;
      printKill ("kill " +:+ a0) ;;
      kill_SIGKILL pid ;;
      set_pids (s ∖ {[pid]}) ;;
      ret OK.

Definition killAllCommand (arguments : list string) : M CommandError :=
  if decide (length arguments <> 0%nat) then ret INVALID_ARGUMENT_NUMBER
  else
    eraseLine ;;
    printKill "killall" ;;
    s <- get_pids ;;
    for_each (elements s) kill_SIGKILL ;;
    set_pids ∅ ;;
    ret OK.

Definition niceCommand (arguments : list string) : M CommandError :=
  if decide (length arguments <> 2%nat) then ret INVALID_ARGUMENT_NUMBER
  else
    a0 <- index arguments 0 ;;
    prio <- lift_stoi a0 ;;
    command <- index arguments 1 ;;
    createProcess [command] prio ;;
    ret OK.

Definition showPids (arguments : list string) : M CommandError :=
  if decide (length arguments <> 0%nat) then ret INVALID_ARGUMENT_NUMBER
  else
    s <- get_pids ;;
    print (OutPids (elements s)) ;;
    ret OK.

Definition listDirContent (arguments : list string) : M CommandError :=
  if decide (length arguments <> 0%nat) then ret INVALID_ARGUMENT_NUMBER
  else
    print (OutDir (current_dir env)) ;;
    ret OK.

Definition printFileContents (arguments : list string) : M CommandError :=
  if decide (length arguments <> 1%nat) then ret INVALID_ARGUMENT_NUMBER
  else
    path <- index arguments 0 ;;
    if negb (is_regular_file env path) then ret INVALID_FILE_PATH
    else if negb (ifstream_opens env path) then ret INVALID_FILE_PATH
    else
      eraseLine ;;
      printKitten ("cat " +:+ path) ;;
      print (OutFile path) ;;
      ret OK.

(** [openNotepad] never looks at its arguments. *)
Definition openNotepad (arguments : list string) : M CommandError :=
  pid <- fork ;;
  if pid =? -1 then ret UNABLE_TO_OPEN_NOTEPAD
  else if pid =? 0 then
    execlp "notepad.exe" "notepad.exe" ;;
    ret UNABLE_TO_OPEN_NOTEPAD
  else
    print (OutNotepad pid) ;;
    s <- get_pids ;;
    set_pids ({[pid]} ∪ s) ;;
    ret OK.

(** ** The command registry and the dispatcher *)

Definition TerminalCommand : Type := list string -> M CommandError.

Definition registry : list (string * TerminalCommand) :=
  [ ("ls", listDirContent);
    ("cat", printFileContents);
    ("notepad", openNotepad);
    ("kill", killCommand);
    ("killall", killAllCommand);
    ("pids", showPids);
    ("nice", niceCommand) ].

Definition terminalCommands : gmap string TerminalCommand :=
  list_to_map registry.

(** [terminalCommands.at(command)] throws [std::out_of_range] on a miss. *)
Definition at_command (command : string) : M TerminalCommand :=
  match terminalCommands !! command with
  | Some handler => ret handler
  | None => throw out_of_range
  end.

Definition executeCommand (tokens : list string) : M CommandError :=
  command <- index tokens 0 ;;
  let arguments := drop 1 tokens in
  try_catch_out_of_range
    (handler <- at_command command ;; handler arguments)
    (ret UNKNOWN_COMMAND).

(** One turn of the loop of [main], for the line [std::getline] has read. *)
Definition main_iteration (inputBuffer : string) : M unit :=
  if decide (inputBuffer = "") then ret tt
  else
    let tokens := splitStringBySpace inputBuffer in
    e <- executeCommand tokens ;;
    e <- (if decide (e = UNKNOWN_COMMAND) then createProcesses tokens else ret e) ;;
    if decide (e <> OK) then print (OutError e) else ret tt.

End Shell.

(** ** Notions of the specification *)

(** The groups of a token stream that the literal token [&&] separates, in
    order: n conjunction tokens separate n + 1 groups, some possibly empty. *)
Fixpoint conj_groups (tokens : list string) : list (list string) :=
  match tokens with
  | [] => [[]]
  | arg :: rest =>
      if String.eqb arg "&&" then [] :: conj_groups rest
      else match conj_groups rest with
           | group :: groups => (arg :: group) :: groups
           | [] => [[arg]]
           end
  end.

(** The groups when the first one continues [currentTokens], the group that
    the loop of [createProcesses] has under construction. *)
Definition extend_first (currentTokens : list string)
    (groups : list (list string)) : list (list string) :=
  match groups with
  | group :: rest => (currentTokens ++ group) :: rest
  | [] => [currentTokens]
  end.

(** The token stream whose groups are [groups]. *)
Fixpoint join_conj (groups : list (list string)) : list string :=
  match groups with
  | [] => []
  | [group] => group
  | group :: rest => group ++ "&&" :: join_conj rest
  end.

(** Launch the groups one after the other, each as an independent request
    of neutral priority; the first launch that does not report [OK] ends the
    sequence with its outcome. *)
Fixpoint launch_in_order (env : Env) (groups : list (list string)) : M CommandError :=
  match groups with
  | [] => ret OK
  | [group] => createProcess env group 0
  | group :: rest =>
      e <- createProcess env group 0 ;;
      if decide (e <> OK) then ret e else launch_in_order env rest
  end.

(** The launch request a group stands for. *)
Definition request (group : list string) : list (option string) * Z :=
  (tokensToArgv group, 0).

(** The shapes of a stream with an empty group: it begins with [&&], ends
    with [&&], or has two [&&] in a row. *)
Definition begins_with_conj (tokens : list string) : Prop :=
  exists rest, tokens = "&&" :: rest.
Definition ends_with_conj (tokens : list string) : Prop :=
  exists front, tokens = front ++ ["&&"].
Definition consecutive_conj (tokens : list string) : Prop :=
  exists front rest, tokens = front ++ "&&" :: "&&" :: rest.

(** The number of arguments each built-in declares. *)
Definition declared_arity : list (string * nat) :=
  [ ("ls", 0); ("cat", 1); ("notepad", 0); ("kill", 1);
    ("killall", 0); ("pids", 0); ("nice", 2) ]%nat.

Fixpoint space_free (s : string) : bool :=
  match s with
  | EmptyString => true
  | String c rest => negb (Ascii.eqb c " ") && space_free rest
  end.

(** ** Environments used as concrete inputs *)

(** Every [fork] succeeds and we follow the shell: the n-th child gets the
    process id 1000 + n. *)
Definition env_parent : Env :=
  {| fork_ret := fun n => 1000 + Z.of_nat n;
     exec_replaces := fun _ _ => true;
     is_regular_file := fun _ => false;
     ifstream_opens := fun _ => false;
     current_dir := [] |}.

(** The system cannot create a process: [fork] returns -1. *)
Definition env_fork_fails : Env :=
  {| fork_ret := fun _ => -1;
     exec_replaces := fun _ _ => true;
     is_regular_file := fun _ => false;
     ifstream_opens := fun _ => false;
     current_dir := [] |}.

(** We follow the duplicate ([fork] returns 0) and no program is found. *)
Definition env_child_exec_fails : Env :=
  {| fork_ret := fun _ => 0;
     exec_replaces := fun _ _ => false;
     is_regular_file := fun _ => false;
     ifstream_opens := fun _ => false;
     current_dir := [] |}.

(** ** The loop of [main] and the interrupt handler *)

(** [while (true)] in [main], for the lines read so far. *)
Fixpoint main_loop (env : Env) (lines : list string) : M unit :=
  match lines with
  | [] => ret tt
  | inputBuffer :: rest => main_iteration env inputBuffer ;; main_loop env rest
  end.

(** [struct winsize], as [ioctl(STDOUT_FILENO, TIOCGWINSZ, &w)] fills it; both
    fields are [unsigned short]. *)
Record winsize := { ws_row : Z; ws_col : Z }.

(** What [closeTerminal] writes, and its pauses. *)
Inductive write :=
| WRed                      (* "\033[31m" *)
| WReset                    (* "\033[0m" *)
| WEndl                     (* std::endl *)
| WAnt                      (* one ant and a space *)
| WSpace                    (* ' ' *)
| WText (s : string)
| WSleep (seconds : Z).     (* sleep(2) *)

(** How [closeTerminal] ends: in [exit(status)], or in the overflow of an
    [int] loop counter, which is undefined behaviour; with the state and the
    writes up to there. *)
Inductive shutdown :=
| Exits (status : Z) (st : State) (screen : list write)
| CounterOverflow (st : State) (screen : list write).

Definition goodbye : list string :=
  [ "FUN BUG FACT:";
    "ONE DAY YOU'LL HAVE TO ANSWER FOR YOUR SINS";
    "AND GOD MAY NOT BE SO";
    "M E R C I F U L" ].

(** [for (int j = 0; j < bound; ++j) body] with an [int] bound: no turn when
    the bound is not positive. *)
Definition for_int (bound : Z) (body : list write) : list write :=
  mjoin (replicate (Z.to_nat bound) body).

(** The rows of ants: [rows] times [cols] ants and two [std::endl]. *)
Definition ant_rows (rows cols : Z) : list write :=
  for_int rows (for_int cols [WAnt] ++ [WEndl; WEndl]).

(** [w.ws_col / 2 - goodbye[i].size() / 2]: the left operand is an [int], the
    right one a [size_t], so the difference is taken in [size_t] and wraps
    around modulo 2^64. *)
Definition padding (w : winsize) (line : string) : Z :=
  (ws_col w / 2 - Z.of_nat (String.length line) / 2) mod 2 ^ 64.

(** The loop over [goodbye]: the counter [j] is an [int] compared with the
    [size_t] bound, so a bound above [INT_MAX] makes [++j] overflow. *)
Fixpoint goodbye_lines (w : winsize) (lines : list string) (screen : list write)
    : list write + list write :=
  match lines with
  | [] => inr screen
  | line :: rest =>
      if padding w line <=? INT_MAX then
        goodbye_lines w rest
          (screen ++ for_int (padding w line) [WSpace]
                  ++ [WText line; WEndl; WSleep 2])
      else inl (screen ++ for_int (INT_MAX + 1) [WSpace])
  end.

(** [closeTerminal], run on the state the signal finds. *)
Definition closeTerminal (w : winsize) (st : State) : shutdown :=
  let st' := (killAllCommand [] st).2 in
  let top := [WRed; WEndl] ++ ant_rows (ws_row w / 2) (ws_col w / 2) in
  match goodbye_lines w goodbye top with
  | inl screen => CounterOverflow st' screen
  | inr screen =>
      Exits 666 st'
        (screen ++ ant_rows (ws_row w / 4 - 1) (ws_col w / 2)
                ++ [WSleep 2; WReset; WEndl])
  end.

(** ** Notions used to state further properties *)

(** The text of a line of [goodbye] after the spaces that centre it. *)
Definition centred (w : winsize) (line : string) : list write :=
  for_int (ws_col w / 2 - Z.of_nat (String.length line) / 2) [WSpace]
  ++ [WText line; WEndl; WSleep 2].

(** The tokens written one after the other with one space between two. *)
Fixpoint join_space (tokens : list string) : string :=
  match tokens with
  | [] => ""
  | [token] => token
  | token :: rest => token +:+ String " " (join_space rest)
  end.

Fixpoint count_spaces (s : string) : nat :=
  match s with
  | EmptyString => 0%nat
  | String c rest => ((if Ascii.eqb c " " then 1 else 0) + count_spaces rest)%nat
  end.

Fixpoint ends_with_space (s : string) : bool :=
  match s with
  | EmptyString => false
  | String c EmptyString => Ascii.eqb c " "
  | String _ rest => ends_with_space rest
  end.

(** The line without its last character when that is a space. *)
Fixpoint drop_final_space (s : string) : string :=
  match s with
  | EmptyString => EmptyString
  | String c EmptyString => if Ascii.eqb c " " then EmptyString else s
  | String c rest => String c (drop_final_space rest)
  end.

(** A process identifier that some earlier [fork] of this process returned
    and that is neither 0 (the caller's process group, for [kill]) nor -1
    (every process). *)
Definition created (env : Env) (n : nat) (pid : Z) : Prop :=
  pid <> 0 /\ pid <> -1 /\ exists k : nat, (k < n)%nat /\ fork_ret env k = pid.

Definition signal_created (env : Env) (n : nat) (e : event) : Prop :=
  match e with
  | EvKill pid => created env n pid
  | _ => True
  end.

(** The job table holds, and the signals sent so far went to, only
    identifiers of processes that the shell created. *)
Definition own_jobs (env : Env) (st : State) : Prop :=
  (forall pid, pid ∈ pids st -> created env (forks st) pid) /\
  Forall (signal_created env (forks st)) (trace st).

(** * Properties *)

(** ** Sanity checks of the tokenizer and of the integer conversion *)

Example split_two_words : splitStringBySpace "kill 42" = ["kill"; "42"].
Proof. reflexivity. Qed.
Example split_double_space : splitStringBySpace "a  b" = ["a"; ""; "b"].
Proof. reflexivity. Qed.
Example split_trailing_space : splitStringBySpace "a " = ["a"].
Proof. reflexivity. Qed.
Example split_only_space : splitStringBySpace " " = [""].
Proof. reflexivity. Qed.

Example stoi_42 : stoi "42" = inr 42.
Proof. reflexivity. Qed.
Example stoi_negative : stoi "-7" = inr (-7).
Proof. reflexivity. Qed.
Example stoi_prefix : stoi "12abc" = inr 12.
Proof. reflexivity. Qed.
Example stoi_text : stoi "abc" = inl invalid_argument.
Proof. reflexivity. Qed.
Example stoi_huge : stoi "99999999999" = inl out_of_range.
Proof. reflexivity. Qed.

(** ** Running the monad *)

Lemma state_eta (st : State) :
  {| pids := pids st; forks := forks st;
     launches := launches st; trace := trace st |} = st.
Proof. by destruct st. Qed.

Ltac run :=
  repeat (unfold bind, ret, throw, undefined, emit, print, get_pids, set_pids,
            record_launch, index, lift_stoi, eraseLine, printKill, printKitten,
            kill_SIGKILL, setpriority, fork;
          cbn [fst snd pids forks launches trace lookup list_lookup length]).

Lemma for_each_kill (xs : list Z) (st : State) :
  for_each xs kill_SIGKILL st =
  (Ret tt, {| pids := pids st; forks := forks st; launches := launches st;
              trace := trace st ++ (EvKill <$> xs) |}).
Proof.
  revert st. induction xs as [|x xs IH]; intros st.
  - cbn [for_each fmap list_fmap]. rewrite app_nil_r. by rewrite state_eta.
  - cbn [for_each]. unfold bind at 1. unfold kill_SIGKILL at 1, emit.
    rewrite IH. cbn [pids forks launches trace fmap list_fmap].
    by rewrite <- app_assoc.
Qed.

Lemma lookup_killall env : terminalCommands env !! "killall" = Some killAllCommand.
Proof. reflexivity. Qed.
Lemma lookup_kill env : terminalCommands env !! "kill" = Some killCommand.
Proof. reflexivity. Qed.
Lemma lookup_nice env : terminalCommands env !! "nice" = Some (niceCommand env).
Proof. reflexivity. Qed.
Lemma lookup_notepad env : terminalCommands env !! "notepad" = Some (openNotepad env).
Proof. reflexivity. Qed.

(** ** Job control: [killall] and [kill] *)

(** C7. For every prior job table, the empty one included, [killall] with no
    argument returns [OK] and leaves the job table empty; it sends the forced
    termination signal to every identifier that was tracked.  The same holds
    when it is reached through the dispatcher. *)
Theorem killall_empties_table (env : Env) (st : State) :
  let after :=
    {| pids := ∅; forks := forks st; launches := launches st;
       trace := trace st ++ [EvPrint OutEraseLine; EvPrint (OutKill "killall")]
                         ++ (EvKill <$> elements (pids st)) |} in
  killAllCommand [] st = (Ret OK, after) /\
  executeCommand env ["killall"] st = (Ret OK, after) /\
  pids after = ∅.
Proof.
  intros after.
  assert (killAllCommand [] st = (Ret OK, after)) as Hk.
  { unfold killAllCommand. cbn [length]. rewrite decide_False by (intros H; by apply H).
    run. rewrite for_each_kill. run. subst after. by rewrite <- !app_assoc. }
  split; [exact Hk|]. split; [|reflexivity].
  unfold executeCommand. run. unfold try_catch_out_of_range, at_command.
  rewrite lookup_killall. run. cbn [drop]. by rewrite Hk.
Qed.

Lemma kill_not_tracked (a : string) (pid : Z) (st : State) :
  stoi a = inr pid -> pid ∉ pids st ->
  killCommand [a] st = (Ret INVALID_PID, st).
Proof.
  intros Hstoi Hnot. unfold killCommand. cbn [length].
  rewrite decide_False by (intros H; by apply H).
  run. rewrite Hstoi. run. by rewrite decide_True.
Qed.

(** A handler found in the registry decides the outcome of the dispatcher,
    unless [std::out_of_range] leaves it. *)
Lemma execute_builtin (env : Env) (name : string) (handler : TerminalCommand)
    (arguments : list string) (st : State) :
  terminalCommands env !! name = Some handler ->
  (handler arguments st).1 <> Throw out_of_range ->
  executeCommand env (name :: arguments) st = handler arguments st.
Proof.
  intros Hreg Hcatch. unfold executeCommand. run.
  unfold try_catch_out_of_range, at_command. rewrite Hreg. run.
  change (drop 1 (name :: arguments)) with arguments.
  destruct (handler arguments st) as [[e|[]| |] st']; try reflexivity.
  exfalso. by apply Hcatch.
Qed.

(** C5. When the argument of [kill] parses as an integer that is not in the
    job table, [kill] returns [INVALID_PID] and the state is the one before:
    the job table is unchanged and the trace records no signal.  The same
    holds when it is reached through the dispatcher. *)
Theorem kill_unknown_pid (env : Env) (a : string) (pid : Z) (st : State) :
  stoi a = inr pid -> pid ∉ pids st ->
  killCommand [a] st = (Ret INVALID_PID, st) /\
  executeCommand env ["kill"; a] st = (Ret INVALID_PID, st).
Proof.
  intros Hstoi Hnot.
  pose proof (kill_not_tracked a pid st Hstoi Hnot) as Hk.
  split; [exact Hk|].
  rewrite (execute_builtin env "kill" killCommand); [exact Hk|apply lookup_kill|].
  by rewrite Hk.
Qed.

Lemma kill_unknown_pid_witness :
  killCommand ["999999"] initial = (Ret INVALID_PID, initial) /\
  executeCommand env_parent ["kill"; "999999"] initial = (Ret INVALID_PID, initial).
Proof.
  apply (kill_unknown_pid env_parent "999999" 999999 initial).
  - reflexivity.
  - cbn [pids initial]. apply not_elem_of_empty.
Defined.

(** ** Arity checks *)

Lemma length_neq_refl (n : nat) : ~ (n <> n).
Proof. intros H. by apply H. Qed.

(** Six of the seven built-ins reject a wrong argument count before they do
    anything. *)
Lemma wrong_arity_rejected (env : Env) (name : string) (handler : TerminalCommand)
    (n : nat) (arguments : list string) (st : State) :
  (name, handler) ∈ registry env -> (name, n) ∈ declared_arity ->
  name <> "notepad" -> length arguments <> n ->
  handler arguments st = (Ret INVALID_ARGUMENT_NUMBER, st).
Proof.
  intros Hreg Har Hname Hlen. unfold registry in Hreg. unfold declared_arity in Har.
  repeat (apply elem_of_cons in Hreg as [Hreg|Hreg]);
    try (by apply elem_of_nil in Hreg);
    injection Hreg as -> ->;
    repeat (apply elem_of_cons in Har as [Har|Har]);
    try (by apply elem_of_nil in Har);
    try discriminate Har;
    injection Har as ->;
    try (by destruct Hname).
  - unfold listDirContent. by rewrite decide_True.
  - unfold printFileContents. by rewrite decide_True.
  - unfold killCommand. by rewrite decide_True.
  - unfold killAllCommand. by rewrite decide_True.
  - unfold showPids. by rewrite decide_True.
  - unfold niceCommand. by rewrite decide_True.
Qed.

(** [notepad] has no such check: its outcome does not depend on the
    arguments at all. *)
Lemma notepad_ignores_arguments (env : Env) (arguments : list string) (st : State) :
  openNotepad env arguments st = openNotepad env [] st.
Proof. reflexivity. Qed.

(** C1. The claim is that every built-in rejects a wrong argument count
    without side effect.  [notepad], declared with no argument, is given one
    here: the dispatcher returns [OK], a process has been forked and its
    identifier is in the job table. *)
Theorem notepad_wrong_arity_launches :
  let r := executeCommand env_parent ["notepad"; "x"] initial in
  ("notepad", 0%nat) ∈ declared_arity /\
  length ["x"] <> 0%nat /\
  r.1 = Ret OK /\
  elements (pids r.2) = [1000] /\
  trace r.2 = [EvFork 1000; EvPrint (OutNotepad 1000)].
Proof.
  intros r. split; [|split].
  - unfold declared_arity. set_solver.
  - discriminate.
  - by vm_compute.
Qed.

(** ** [nice] *)

Lemma createProcess_launches (env : Env) (tokens : list string) (priority : Z)
    (st : State) :
  launches (createProcess env tokens priority st).2 =
  launches st ++ [(tokensToArgv tokens, priority)].
Proof.
  unfold createProcess. run.
  destruct (fork_ret env (forks st) <? 0); [reflexivity|].
  destruct (fork_ret env (forks st) =? 0); [|reflexivity].
  unfold tokensToArgv. destruct tokens as [|t ts]; cbn [fmap list_fmap app]; run.
  - reflexivity.
  - unfold execvp, exec. run. by destruct (exec_replaces env _ _).
Qed.

Lemma createProcess_forks (env : Env) (tokens : list string) (priority : Z)
    (st : State) :
  forks (createProcess env tokens priority st).2 = S (forks st).
Proof.
  unfold createProcess. run.
  destruct (fork_ret env (forks st) <? 0); [reflexivity|].
  destruct (fork_ret env (forks st) =? 0); [|reflexivity].
  unfold tokensToArgv. destruct tokens as [|t ts]; cbn [fmap list_fmap app]; run.
  - reflexivity.
  - unfold execvp, exec. run. by destruct (exec_replaces env _ _).
Qed.

Lemma nice_two_arguments (env : Env) (p c : string) (prio : Z) (st : State) :
  stoi p = inr prio ->
  niceCommand env [p; c] st = (createProcess env [c] prio ;; ret OK) st.
Proof.
  intros Hstoi. unfold niceCommand. cbn [length].
  rewrite decide_False by apply length_neq_refl.
  run. rewrite Hstoi. reflexivity.
Qed.

(** Whatever the launcher returns, [nice] returns [OK]. *)
Lemma nice_discards_launcher_outcome (env : Env) (p c : string) (prio : Z)
    (st st' : State) (e : CommandError) :
  stoi p = inr prio ->
  createProcess env [c] prio st = (Ret e, st') ->
  niceCommand env [p; c] st = (Ret OK, st').
Proof.
  intros Hstoi Hlaunch. rewrite (nice_two_arguments _ _ _ prio) by done.
  unfold bind. by rewrite Hlaunch.
Qed.

(** C2. The claim is that [nice] hands a failure of the launcher to its
    caller.  With a valid priority and a command name, the launcher reports
    [FORK_ERROR] when [fork] fails, and [INVALID_PROCESS_INPUT] in the
    duplicate when the program is not found; [nice] returns [OK] both times. *)
Theorem nice_swallows_launcher_errors :
  (createProcess env_fork_fails ["foo"] 5 initial).1 = Ret FORK_ERROR /\
  (niceCommand env_fork_fails ["5"; "foo"] initial).1 = Ret OK /\
  (createProcess env_child_exec_fails ["foo"] 5 initial).1 = Ret INVALID_PROCESS_INPUT /\
  (niceCommand env_child_exec_fails ["5"; "foo"] initial).1 = Ret OK.
Proof. repeat split; by vm_compute. Qed.

(** C3, as claimed: [nice] would return [INVALID_ARGUMENT_NUMBER] exactly when
    it has fewer than two arguments.  With three arguments it returns it
    too. *)
Lemma nice_three_arguments_rejected :
  ~ ((niceCommand env_parent ["5"; "sleep"; "100"] initial).1
       = Ret INVALID_ARGUMENT_NUMBER
     <-> (length ["5"; "sleep"; "100"] < 2)%nat).
Proof.
  intros [Hfwd _].
  assert ((niceCommand env_parent ["5"; "sleep"; "100"] initial).1
          = Ret INVALID_ARGUMENT_NUMBER) as H by reflexivity.
  apply Hfwd in H. cbn [length] in H. lia.
Qed.

(** C3, amended. [nice] returns [INVALID_ARGUMENT_NUMBER] exactly when the
    number of its arguments is not two; with two arguments, the first an
    integer, it passes the check and invokes the launcher once, with the
    second argument as the whole program name and the given priority. *)
Theorem nice_arity_exactly_two (env : Env) (arguments : list string) (st : State) :
  ((niceCommand env arguments st).1 = Ret INVALID_ARGUMENT_NUMBER
   <-> length arguments <> 2%nat) /\
  (forall p c prio, arguments = [p; c] -> stoi p = inr prio ->
     niceCommand env arguments st = (createProcess env [c] prio ;; ret OK) st /\
     launches (niceCommand env arguments st).2
       = launches st ++ [(tokensToArgv [c], prio)] /\
     forks (niceCommand env arguments st).2 = S (forks st)).
Proof.
  split.
  - split.
    + intros Hret Hlen.
      destruct arguments as [|p [|c [|]]]; try discriminate Hlen.
      revert Hret. unfold niceCommand. cbn [length].
      rewrite decide_False by apply length_neq_refl. run.
      destruct (stoi p) as [e|prio]; [discriminate|]. run.
      by destruct (createProcess env [c] prio st) as [[e| | |] st'].
    + intros Hlen. unfold niceCommand. by rewrite decide_True.
  - intros p c prio -> Hstoi.
    pose proof (nice_two_arguments env p c prio st Hstoi) as Heq.
    split; [exact Heq|]. rewrite Heq. unfold bind.
    pose proof (createProcess_launches env [c] prio st) as Hl.
    pose proof (createProcess_forks env [c] prio st) as Hf.
    by destruct (createProcess env [c] prio st) as [[e| | |] st'].
Qed.

Lemma nice_arity_exactly_two_witness :
  launches (niceCommand env_parent ["5"; "sleep"] initial).2
    = [(tokensToArgv ["sleep"], 5)].
Proof.
  destruct (nice_arity_exactly_two env_parent ["5"; "sleep"] initial) as [_ H].
  destruct (H "5" "sleep" 5 eq_refl eq_refl) as (_ & Hl & _).
  exact Hl.
Defined.

(** ** Malformed integers *)

Lemma kill_malformed (a : string) (e : exn) (st : State) :
  stoi a = inl e -> killCommand [a] st = (Throw e, st).
Proof.
  intros Hstoi. unfold killCommand. cbn [length].
  rewrite decide_False by apply length_neq_refl.
  run. by rewrite Hstoi.
Qed.

Lemma nice_malformed (env : Env) (a c : string) (e : exn) (st : State) :
  stoi a = inl e -> niceCommand env [a; c] st = (Throw e, st).
Proof.
  intros Hstoi. unfold niceCommand. cbn [length].
  rewrite decide_False by apply length_neq_refl.
  run. by rewrite Hstoi.
Qed.

Lemma main_iteration_throw (env : Env) (line : string) (tokens : list string)
    (e : exn) (st st' : State) :
  line <> "" -> splitStringBySpace line = tokens ->
  executeCommand env tokens st = (Throw e, st') ->
  main_iteration env line st = (Throw e, st').
Proof.
  intros Hline Htok Hexec. unfold main_iteration.
  rewrite decide_False by done. rewrite Htok. unfold bind at 1. by rewrite Hexec.
Qed.

(** C6. The claim is that non-integer text in an integer position makes the
    handler return [INVALID_ARGUMENT] and lets the loop go on.  On [kill abc]
    and on [nice abc foo] the conversion throws [std::invalid_argument]; the
    handler returns nothing, the dispatcher catches only [std::out_of_range],
    and the exception leaves the turn of the loop of [main]. *)
Theorem malformed_integer_escapes (env : Env) (st : State) :
  killCommand ["abc"] st = (Throw invalid_argument, st) /\
  niceCommand env ["abc"; "foo"] st = (Throw invalid_argument, st) /\
  main_iteration env "kill abc" st = (Throw invalid_argument, st) /\
  main_iteration env "nice abc foo" st = (Throw invalid_argument, st).
Proof.
  assert (killCommand ["abc"] st = (Throw invalid_argument, st)) as Hk
    by (by apply kill_malformed).
  assert (niceCommand env ["abc"; "foo"] st = (Throw invalid_argument, st)) as Hn
    by (by apply nice_malformed).
  split; [exact Hk|]. split; [exact Hn|]. split.
  - apply (main_iteration_throw env _ ["kill"; "abc"]); [done|reflexivity|].
    rewrite (execute_builtin env "kill" killCommand); [exact Hk|apply lookup_kill|].
    by rewrite Hk.
  - apply (main_iteration_throw env _ ["nice"; "abc"; "foo"]); [done|reflexivity|].
    rewrite (execute_builtin env "nice" (niceCommand env)); [exact Hn|apply lookup_nice|].
    by rewrite Hn.
Qed.

(** ** Multi-launch orchestration: [createProcesses] *)

Lemma conj_groups_nonempty (tokens : list string) : conj_groups tokens <> [].
Proof.
  destruct tokens as [|arg rest]; [done|]. cbn [conj_groups].
  destruct (String.eqb arg "&&"); [done|]. by destruct (conj_groups rest).
Qed.

Lemma join_conj_groups (tokens : list string) :
  join_conj (conj_groups tokens) = tokens.
Proof.
  induction tokens as [|arg rest IH]; [done|]. cbn [conj_groups].
  destruct (String.eqb arg "&&") eqn:E.
  - apply String.eqb_eq in E as ->. cbn [join_conj].
    pose proof (conj_groups_nonempty rest).
    destruct (conj_groups rest) as [|g gs]; [done|]. cbn [app]. by rewrite IH.
  - pose proof (conj_groups_nonempty rest).
    destruct (conj_groups rest) as [|g [|g' gs]].
    + done.
    + cbn [join_conj] in *. by rewrite IH.
    + cbn [join_conj] in *. cbn [app]. by rewrite IH.
Qed.

Lemma conj_groups_no_separator (tokens group : list string) :
  group ∈ conj_groups tokens -> "&&" ∉ group.
Proof.
  revert group. induction tokens as [|arg rest IH]; intros group; cbn [conj_groups].
  - intros ->%list_elem_of_singleton. apply not_elem_of_nil.
  - destruct (String.eqb arg "&&") eqn:E.
    + intros [->|Hin]%elem_of_cons; [apply not_elem_of_nil|by apply IH].
    + apply String.eqb_neq in E.
      destruct (conj_groups rest) as [|g gs].
      * intros ->%list_elem_of_singleton Hin%list_elem_of_singleton. by apply E.
      * intros [->|Hin]%elem_of_cons.
        -- intros [Heq|Hin]%elem_of_cons; [done|].
           revert Hin. apply IH. by left.
        -- apply IH. by right.
Qed.

Lemma launch_in_order_cons (env : Env) (group : list string)
    (rest : list (list string)) :
  rest <> [] ->
  launch_in_order env (group :: rest) =
  (e <- createProcess env group 0 ;;
   if decide (e <> OK) then ret e else launch_in_order env rest).
Proof. by destruct rest. Qed.

Lemma createProcesses_loop_groups (env : Env) (tokens currentTokens : list string)
    (st : State) :
  createProcesses_loop env tokens currentTokens OK st =
  launch_in_order env (extend_first currentTokens (conj_groups tokens)) st.
Proof.
  revert currentTokens st.
  induction tokens as [|arg rest IH]; intros cur st.
  - cbn [createProcesses_loop conj_groups extend_first launch_in_order].
    by rewrite app_nil_r.
  - cbn [createProcesses_loop conj_groups].
    destruct (String.eqb arg "&&").
    + cbn [extend_first]. rewrite app_nil_r.
      rewrite launch_in_order_cons by apply conj_groups_nonempty.
      unfold bind, ret.
      destruct (createProcess env cur 0 st) as [[e| | |] st1]; try reflexivity.
      destruct (decide (e <> OK)) as [Hne|Heq]; [reflexivity|].
      apply dec_stable in Heq as ->.
      rewrite IH.
      pose proof (conj_groups_nonempty rest).
      by destruct (conj_groups rest).
    + unfold bind at 1. unfold ret at 1.
      rewrite decide_False by (intros H; by apply H).
      rewrite IH.
      pose proof (conj_groups_nonempty rest).
      destruct (conj_groups rest) as [|g gs]; [done|].
      cbn [extend_first]. by rewrite <- app_assoc.
Qed.

(** The launches that [launch_in_order] adds are a non-empty prefix of the
    groups, and it is a proper prefix only when the outcome is not [OK]. *)
Lemma launch_in_order_prefix (env : Env) (groups : list (list string)) (st : State) :
  groups <> [] ->
  exists k : nat,
    (0 < k <= length groups)%nat /\
    launches (launch_in_order env groups st).2
      = launches st ++ (request <$> take k groups) /\
    ((k < length groups)%nat -> (launch_in_order env groups st).1 <> Ret OK).
Proof.
  revert st. induction groups as [|group rest IH]; intros st Hne; [done|].
  destruct rest as [|group' rest'].
  - exists 1%nat. cbn [launch_in_order length take fmap list_fmap].
    split; [lia|]. split; [|lia].
    by rewrite createProcess_launches.
  - rewrite launch_in_order_cons by done. unfold bind, ret.
    pose proof (createProcess_launches env group 0 st) as Hl.
    destruct (createProcess env group 0 st) as [[e| | |] st1];
      cbn [fst snd] in Hl.
    + destruct (decide (e <> OK)) as [Hfail|Hok].
      * exists 1%nat. cbn [length take fmap list_fmap fst snd].
        split; [lia|]. split; [exact Hl|]. intros _ [= ->]. by apply Hfail.
      * destruct (IH st1) as (k & Hk & Hlk & Hstop); [done|].
        exists (S k). cbn [length] in *. split; [lia|]. split.
        -- rewrite Hlk, Hl. cbn [take fmap list_fmap]. by rewrite <- app_assoc.
        -- intros Hlt. apply Hstop. lia.
    + exists 1%nat. cbn [length take fmap list_fmap fst snd].
      split; [lia|]. by split.
    + exists 1%nat. cbn [length take fmap list_fmap fst snd].
      split; [lia|]. by split.
    + exists 1%nat. cbn [length take fmap list_fmap fst snd].
      split; [lia|]. by split.
Qed.

(** Tokens other than [&&] only extend the group under construction. *)
Lemma createProcesses_loop_skip (env : Env) (group rest currentTokens : list string)
    (st : State) :
  "&&" ∉ group ->
  createProcesses_loop env (group ++ rest) currentTokens OK st =
  createProcesses_loop env rest (currentTokens ++ group) OK st.
Proof.
  revert currentTokens. induction group as [|a group IH]; intros cur Hsep.
  - by rewrite app_nil_r.
  - cbn [app createProcesses_loop].
    destruct (String.eqb a "&&") eqn:E.
    + apply String.eqb_eq in E as ->. exfalso. apply Hsep. by left.
    + unfold bind at 1. unfold ret at 1.
      rewrite decide_False by (intros H; by apply H).
      rewrite IH by (intros Hin; apply Hsep; by right).
      by rewrite <- app_assoc.
Qed.

(** P5 of the specification: when the launch of the first group fails, the
    failure is the outcome and nothing after the [&&] is launched. *)
Lemma failed_first_launch_stops (env : Env) (cmdA cmdB : list string)
    (e : CommandError) (st st' : State) :
  "&&" ∉ cmdA -> e <> OK ->
  createProcess env cmdA 0 st = (Ret e, st') ->
  createProcesses env (cmdA ++ "&&" :: cmdB) st = (Ret e, st').
Proof.
  intros Hsep Hfail Hlaunch. unfold createProcesses.
  rewrite createProcesses_loop_skip by done.
  cbn [app createProcesses_loop].
  change (String.eqb "&&" "&&") with true. cbv iota.
  unfold bind, ret. rewrite Hlaunch. by rewrite decide_True.
Qed.

(** A first token that is no built-in makes the loop of [main] hand the whole
    token stream to [createProcesses]. *)
Lemma unknown_command_falls_through (env : Env) (inputBuffer command : string)
    (arguments : list string) (st : State) :
  inputBuffer <> "" ->
  splitStringBySpace inputBuffer = command :: arguments ->
  terminalCommands env !! command = None ->
  main_iteration env inputBuffer st =
  (e <- createProcesses env (command :: arguments) ;;
   if decide (e <> OK) then print (OutError e) else ret tt) st.
Proof.
  intros Hline Htok Hmiss. unfold main_iteration.
  rewrite decide_False by done. rewrite Htok.
  assert (executeCommand env (command :: arguments) st = (Ret UNKNOWN_COMMAND, st)) as Hexec.
  { unfold executeCommand. run. unfold try_catch_out_of_range, at_command.
    by rewrite Hmiss. }
  unfold bind at 1. rewrite Hexec. unfold bind at 1.
  rewrite decide_True by done. reflexivity.
Qed.

(** C4. The token stream is partitioned into the groups that the literal
    token [&&] separates; [createProcesses] launches the groups from left to
    right and stops at the first launch that does not report [OK], whose
    outcome it returns: the launches it adds are a prefix of the groups, a
    proper one only when the outcome is not [OK]. *)
Theorem createProcesses_left_to_right (env : Env) (tokens : list string) (st : State) :
  let groups := conj_groups tokens in
  let r := createProcesses env tokens st in
  join_conj groups = tokens /\
  (forall group, group ∈ groups -> "&&" ∉ group) /\
  r = launch_in_order env groups st /\
  exists k : nat,
    (0 < k <= length groups)%nat /\
    launches r.2 = launches st ++ (request <$> take k groups) /\
    ((k < length groups)%nat -> r.1 <> Ret OK).
Proof.
  intros groups r.
  assert (r = launch_in_order env groups st) as Hr.
  { subst r groups. unfold createProcesses. rewrite createProcesses_loop_groups.
    pose proof (conj_groups_nonempty tokens).
    by destruct (conj_groups tokens). }
  split; [apply join_conj_groups|].
  split; [intros group; apply conj_groups_no_separator|].
  split; [exact Hr|]. rewrite Hr.
  apply launch_in_order_prefix, conj_groups_nonempty.
Qed.

(** ** Empty groups *)

(** In the shell, after a [fork] that succeeded, the launcher tracks the new
    identifier, sets its priority and reports [OK]. *)
Lemma createProcess_parent (env : Env) (tokens : list string) (priority : Z)
    (st : State) :
  0 < fork_ret env (forks st) ->
  createProcess env tokens priority st =
  (Ret OK,
   {| pids := {[fork_ret env (forks st)]} ∪ pids st;
      forks := S (forks st);
      launches := launches st ++ [(tokensToArgv tokens, priority)];
      trace := trace st ++ [EvFork (fork_ret env (forks st));
                            EvSetPriority (fork_ret env (forks st)) priority] |}).
Proof.
  intros Hpid. unfold createProcess. run.
  destruct (Z.ltb_spec (fork_ret env (forks st)) 0) as [?|_]; [lia|].
  destruct (Z.eqb_spec (fork_ret env (forks st)) 0) as [?|_]; [lia|].
  run. by rewrite <- app_assoc.
Qed.

(** In the duplicate, the launcher hands the null pointer in position 0 of
    the argument vector of an empty token sequence to [execvp]. *)
Lemma createProcess_empty_in_child (env : Env) (priority : Z) (st : State) :
  fork_ret env (forks st) = 0 ->
  (createProcess env [] priority st).1 = Undefined.
Proof. intros Hpid. unfold createProcess. run. by rewrite Hpid. Qed.

Lemma launch_in_order_all (env : Env) (groups : list (list string)) (st : State) :
  (forall n, 0 < fork_ret env n) -> groups <> [] ->
  (launch_in_order env groups st).1 = Ret OK /\
  launches (launch_in_order env groups st).2 = launches st ++ (request <$> groups).
Proof.
  intros Hfork. revert st.
  induction groups as [|group rest IH]; intros st Hne; [done|].
  destruct rest as [|group' rest'].
  - cbn [launch_in_order]. by rewrite createProcess_parent.
  - rewrite launch_in_order_cons by done. unfold bind, ret.
    rewrite createProcess_parent by done.
    rewrite decide_False by (intros H; by apply H).
    destruct (IH {| pids := {[fork_ret env (forks st)]} ∪ pids st;
                    forks := S (forks st);
                    launches := launches st ++ [(tokensToArgv group, 0)];
                    trace := trace st ++ [EvFork (fork_ret env (forks st));
                                          EvSetPriority (fork_ret env (forks st)) 0] |})
      as [Hok Hl]; [done|].
    split; [exact Hok|]. rewrite Hl. cbn [launches].
    change (request <$> group :: group' :: rest')
      with (request group :: (request <$> group' :: rest')).
    by rewrite <- app_assoc.
Qed.

(** What follows a [&&] keeps its groups. *)
Lemma conj_groups_after_separator (front rest : list string) :
  exists before, before <> [] /\
    conj_groups (front ++ "&&" :: rest) = before ++ conj_groups rest.
Proof.
  induction front as [|a front (before & Hne & IH)].
  - exists [[]]. by split.
  - cbn [app conj_groups]. rewrite IH.
    destruct (String.eqb a "&&").
    + exists ([] :: before). by split.
    + destruct before as [|b bs]; [done|].
      exists ((a :: b) :: bs). by split.
Qed.

Lemma empty_group_of_shape (tokens : list string) :
  begins_with_conj tokens \/ ends_with_conj tokens \/ consecutive_conj tokens ->
  exists before after, conj_groups tokens = before ++ [] :: after.
Proof.
  intros [(rest & ->)|[(front & ->)|(front & rest & ->)]].
  - exists [], (conj_groups rest). reflexivity.
  - destruct (conj_groups_after_separator front []) as (before & _ & ->).
    by exists before, [].
  - destruct (conj_groups_after_separator front ("&&" :: rest)) as (before & _ & ->).
    by exists before, (conj_groups rest).
Qed.

(** C9. A fallthrough stream that begins with [&&] always has the launcher
    invoked first with the empty token sequence.  A stream that begins with
    [&&], ends with [&&] or has two [&&] in a row has it invoked with the empty
    token sequence whenever the launches succeed: when every [fork] returns a
    process identifier to the shell, and more generally whenever
    [createProcesses] reports [OK].  The argument vector of that invocation
    holds only the null terminator: its program name, in position 0, is
    null. *)
Theorem empty_group_reaches_launcher (env : Env) (tokens : list string) (st : State) :
  let r := createProcesses env tokens st in
  (begins_with_conj tokens ->
     exists after, launches r.2 = launches st ++ ([None], 0) :: after) /\
  (begins_with_conj tokens \/ ends_with_conj tokens \/ consecutive_conj tokens ->
   (forall n, 0 < fork_ret env n) ->
     exists before after,
       launches r.2 = launches st ++ before ++ ([None], 0) :: after) /\
  (begins_with_conj tokens \/ ends_with_conj tokens \/ consecutive_conj tokens ->
   r.1 = Ret OK ->
     exists before after,
       launches r.2 = launches st ++ before ++ ([None], 0) :: after) /\
  request [] = ([None], 0) /\
  tokensToArgv [] !! 0%nat = Some None.
Proof.
  intros r.
  assert (r = launch_in_order env (conj_groups tokens) st) as Hr.
  { subst r. unfold createProcesses. rewrite createProcesses_loop_groups.
    pose proof (conj_groups_nonempty tokens).
    by destruct (conj_groups tokens). }
  split; [|split; [|split; [|by split]]].
  - intros (rest & ->). rewrite Hr.
    destruct (launch_in_order_prefix env (conj_groups ("&&" :: rest)) st)
      as (k & Hk & Hl & _); [apply conj_groups_nonempty|].
    rewrite Hl. destruct k as [|k]; [lia|].
    exists (request <$> take k (conj_groups rest)). reflexivity.
  - intros Hshape Hfork. rewrite Hr.
    destruct (launch_in_order_all env (conj_groups tokens) st Hfork)
      as [_ Hl]; [apply conj_groups_nonempty|].
    rewrite Hl.
    destruct (empty_group_of_shape tokens Hshape) as (before & after & ->).
    exists (request <$> before), (request <$> after).
    by rewrite fmap_app.
  - intros Hshape Hok. rewrite Hr in Hok |- *.
    destruct (launch_in_order_prefix env (conj_groups tokens) st)
      as (k & Hk & Hl & Hstop); [apply conj_groups_nonempty|].
    assert (k = length (conj_groups tokens)) as ->.
    { destruct (decide (k < length (conj_groups tokens))%nat) as [Hlt|Hge]; [|lia].
      by destruct (Hstop Hlt). }
    rewrite Hl, firstn_all.
    destruct (empty_group_of_shape tokens Hshape) as (before & after & ->).
    exists (request <$> before), (request <$> after).
    by rewrite fmap_app.
Qed.

Lemma empty_group_reaches_launcher_witness :
  exists before after,
    launches (createProcesses env_parent ["a"; "&&"; "&&"; "b"] initial).2
      = launches initial ++ before ++ ([None], 0) :: after.
Proof.
  pose proof (empty_group_reaches_launcher env_parent ["a"; "&&"; "&&"; "b"] initial)
    as H.
  cbv zeta in H. destruct H as (_ & Hforks & _).
  apply Hforks.
  - right. right. by exists ["a"], ["b"].
  - intros n. cbn [fork_ret env_parent]. lia.
Defined.

(** ** The tokenizer *)

Lemma split_loop_unfold (iss : string) (substrings : list string) :
  split_loop iss substrings =
  match getline " " iss with
  | None => substrings
  | Some (substring, iss') => split_loop iss' (substrings ++ [substring])
  end.
Proof.
  rewrite split_loop_equation_1.
  generalize (inspect (getline " " iss)).
  intros [[[t r]|] e]; simpl; rewrite e; reflexivity.
Qed.

Lemma getline_shorter (delim : ascii) (iss substring iss' : string) :
  getline delim iss = Some (substring, iss') ->
  (String.length iss' < String.length iss)%nat.
Proof.
  destruct iss as [|c s]; [discriminate|]. unfold getline. intros [= E].
  revert c substring iss' E.
  induction s as [|d s IH]; intros c t r; cbn [extract].
  - destruct (Ascii.eqb c delim); intros [= <- <-]; cbn [String.length]; lia.
  - destruct (Ascii.eqb c delim); [intros [= <- <-]; cbn [String.length]; lia|].
    specialize (IH d). cbn [extract] in IH.
    destruct (Ascii.eqb d delim).
    + intros [= <- <-]. cbn [String.length]. lia.
    + destruct (extract delim s) as [t' r'].
      intros [= <- <-]. specialize (IH _ _ eq_refl). cbn [String.length] in *. lia.
Qed.

(** The substrings pushed so far are never touched again. *)
Lemma split_loop_acc (iss : string) (substrings : list string) :
  split_loop iss substrings = substrings ++ split_loop iss [].
Proof.
  remember (String.length iss) as n eqn:Hn.
  revert iss substrings Hn.
  induction (lt_wf n) as [n _ IH]. intros iss substrings ->.
  rewrite (split_loop_unfold iss substrings), (split_loop_unfold iss []).
  destruct (getline " " iss) as [[t r]|] eqn:E.
  - apply getline_shorter in E.
    rewrite (IH _ E _ (substrings ++ _) eq_refl).
    rewrite (IH _ E _ ([] ++ _) eq_refl).
    by rewrite <- app_assoc.
  - by rewrite app_nil_r.
Qed.

Lemma extract_field (a rest : string) :
  space_free a = true ->
  extract " " (a +:+ String " " rest) = (a, rest).
Proof.
  induction a as [|c a IH]; intros Hfree; [reflexivity|].
  cbn [space_free] in Hfree. apply andb_true_iff in Hfree as [Hc Ha].
  apply negb_true_iff in Hc.
  change (String c a +:+ String " " rest) with (String c (a +:+ String " " rest)).
  cbn [extract]. rewrite Hc. by rewrite IH.
Qed.

Lemma extract_last (a : string) :
  space_free a = true -> extract " " a = (a, "").
Proof.
  induction a as [|c a IH]; intros Hfree; [reflexivity|].
  cbn [space_free] in Hfree. apply andb_true_iff in Hfree as [Hc Ha].
  apply negb_true_iff in Hc. cbn [extract]. rewrite Hc. by rewrite IH.
Qed.

Lemma getline_some (delim : ascii) (iss : string) :
  iss <> "" -> getline delim iss = Some (extract delim iss).
Proof. by destruct iss. Qed.

Lemma split_field (a rest : string) :
  space_free a = true ->
  splitStringBySpace (a +:+ String " " rest) = a :: splitStringBySpace rest.
Proof.
  intros Hfree. unfold splitStringBySpace. rewrite split_loop_unfold.
  rewrite getline_some by (by destruct a).
  rewrite extract_field by done. by rewrite split_loop_acc.
Qed.

Lemma split_last (a : string) :
  space_free a = true -> a <> "" -> splitStringBySpace a = [a].
Proof.
  intros Hfree Hne. unfold splitStringBySpace. rewrite split_loop_unfold.
  rewrite getline_some by done. rewrite extract_last by done.
  by rewrite split_loop_unfold.
Qed.

(** C8. The tokenizer cuts the line at every single space: a substring
    without space that a space follows is a token, and the tokens of what
    follows the space come after it; a last substring without space is a
    token when it is not empty.  Two spaces in a row therefore yield an empty
    token, which is kept.  The empty line has no token, and the turn of the loop
    of [main] that reads it returns at once with the state unchanged: no
    command is executed. *)
Theorem tokenizer_splits_on_single_spaces :
  (forall a rest, space_free a = true ->
     splitStringBySpace (a +:+ " " +:+ rest) = a :: splitStringBySpace rest) /\
  (forall a, space_free a = true -> a <> "" -> splitStringBySpace a = [a]) /\
  (forall a rest, space_free a = true ->
     splitStringBySpace (a +:+ "  " +:+ rest) = a :: "" :: splitStringBySpace rest) /\
  splitStringBySpace "" = [] /\
  (forall env st, main_iteration env "" st = (Ret tt, st)).
Proof.
  split; [|split; [|split; [|split]]].
  - intros a rest Hfree. by apply split_field.
  - apply split_last.
  - intros a rest Hfree.
    change (a +:+ "  " +:+ rest) with (a +:+ String " " ("" +:+ String " " rest)).
    rewrite split_field by done. by rewrite split_field.
  - reflexivity.
  - intros env st. reflexivity.
Qed.

Lemma tokenizer_splits_on_single_spaces_witness :
  splitStringBySpace ("ls" +:+ "  " +:+ "-l") = "ls" :: "" :: splitStringBySpace "-l" /\
  splitStringBySpace "-l" = ["-l"].
Proof.
  destruct tokenizer_splits_on_single_spaces as (_ & Hlast & Hdouble & _).
  split.
  - apply (Hdouble "ls" "-l"). reflexivity.
  - apply (Hlast "-l"); [reflexivity|discriminate].
Defined.

(** C10. A line that is not empty has at least one token, the first possibly
    the empty string, so the access of the dispatcher to [tokens[0]] is in
    bounds. *)
Theorem nonempty_line_has_first_token (inputBuffer : string) :
  inputBuffer <> "" ->
  exists command arguments,
    splitStringBySpace inputBuffer = command :: arguments /\
    forall st, index (splitStringBySpace inputBuffer) 0 st = (Ret command, st).
Proof.
  intros Hne.
  assert (exists command arguments,
             splitStringBySpace inputBuffer = command :: arguments)
    as (command & arguments & Htok).
  { unfold splitStringBySpace. rewrite split_loop_unfold.
    rewrite getline_some by done.
    destruct (extract " " inputBuffer) as [t r].
    rewrite split_loop_acc. by exists t, (split_loop r []). }
  exists command, arguments. split; [exact Htok|].
  intros st. by rewrite Htok.
Qed.

Lemma nonempty_line_has_first_token_witness :
  exists command arguments,
    splitStringBySpace " " = command :: arguments /\
    forall st, index (splitStringBySpace " ") 0 st = (Ret command, st).
Proof. apply (nonempty_line_has_first_token " "). discriminate. Defined.

(** * Further properties *)

(** ** The tokenizer, character by character *)

Lemma split_space (s : string) :
  splitStringBySpace (String " " s) = "" :: splitStringBySpace s.
Proof. apply (split_field "" s). reflexivity. Qed.

Lemma split_char (c : ascii) (s : string) :
  Ascii.eqb c " " = false ->
  splitStringBySpace (String c s) =
  match splitStringBySpace s with
  | token :: tokens => String c token :: tokens
  | [] => [String c ""]
  end.
Proof.
  intros Hc. unfold splitStringBySpace.
  rewrite (split_loop_unfold (String c s)). rewrite getline_some by done.
  cbn [extract]. rewrite Hc.
  rewrite (split_loop_unfold s).
  destruct s as [|d s'].
  - cbn [extract getline]. by rewrite split_loop_unfold.
  - rewrite getline_some by done.
    destruct (extract " " (String d s')) as [t r].
    rewrite (split_loop_acc r ([] ++ [String c t])), (split_loop_acc r ([] ++ [t])).
    reflexivity.
Qed.

Lemma split_nonempty (s : string) : s <> "" -> splitStringBySpace s <> [].
Proof.
  destruct s as [|c s]; [done|]. intros _.
  destruct (Ascii.eqb c " ") eqn:Hc.
  - apply Ascii.eqb_eq in Hc as ->. by rewrite split_space.
  - rewrite split_char by done. by destruct (splitStringBySpace s).
Qed.

(** X1. No token holds a space, whatever the line. *)
Theorem tokens_are_space_free (inputString : string) :
  Forall (fun token => space_free token = true) (splitStringBySpace inputString).
Proof.
  induction inputString as [|c s IH]; [by constructor|].
  destruct (Ascii.eqb c " ") eqn:Hc.
  - apply Ascii.eqb_eq in Hc as ->. rewrite split_space. by constructor.
  - rewrite split_char by done.
    destruct (splitStringBySpace s) as [|token tokens].
    + constructor; [|constructor]. cbn [space_free]. by rewrite Hc.
    + inversion IH as [|? ? Htoken Htokens]; subst.
      constructor; [|done]. cbn [space_free]. by rewrite Hc, Htoken.
Qed.

Lemma join_space_cons_char (c : ascii) (token : string) (tokens : list string) :
  join_space (String c token :: tokens) = String c (join_space (token :: tokens)).
Proof. by destruct tokens. Qed.

(** X2. Writing the tokens one after the other with single spaces between
    them gives the line back, but for one space at its very end, which the
    tokenizer drops. *)
Theorem split_then_join (inputString : string) :
  join_space (splitStringBySpace inputString) = drop_final_space inputString.
Proof.
  induction inputString as [|c s IH]; [reflexivity|].
  destruct (Ascii.eqb c " ") eqn:Hc.
  - apply Ascii.eqb_eq in Hc as ->. rewrite split_space.
    destruct s as [|d s']; [reflexivity|].
    pose proof (split_nonempty (String d s')) as Hne.
    destruct (splitStringBySpace (String d s')) as [|token tokens]; [by destruct Hne|].
    cbn [join_space drop_final_space] in *. by rewrite <- IH.
  - rewrite split_char by done.
    destruct s as [|d s'].
    + cbn [drop_final_space]. by rewrite Hc.
    + pose proof (split_nonempty (String d s')) as Hne.
      destruct (splitStringBySpace (String d s')) as [|token tokens]; [by destruct Hne|].
      rewrite join_space_cons_char, IH. reflexivity.
Qed.

(** X3. The number of tokens is the number of spaces of the line, and one
    more when the line is not empty and does not end with a space. *)
Theorem token_count (inputString : string) :
  length (splitStringBySpace inputString) =
  (count_spaces inputString +
   (if decide (inputString = "") then 0
    else if ends_with_space inputString then 0 else 1))%nat.
Proof.
  induction inputString as [|c s IH]; [reflexivity|].
  rewrite decide_False by done.
  destruct (Ascii.eqb c " ") eqn:Hc.
  - apply Ascii.eqb_eq in Hc as ->. rewrite split_space.
    cbn [length count_spaces]. rewrite IH.
    destruct s as [|d s']; [reflexivity|].
    rewrite decide_False by done. cbn [ends_with_space Ascii.eqb Bool.eqb]. lia.
  - rewrite split_char by done. cbn [count_spaces]. rewrite Hc.
    destruct s as [|d s'].
    + cbn [splitStringBySpace length ends_with_space count_spaces]. rewrite Hc.
      reflexivity.
    + pose proof (split_nonempty (String d s')) as Hne.
      rewrite decide_False in IH by done.
      destruct (splitStringBySpace (String d s')) as [|token tokens]; [by destruct Hne|].
      cbn [length] in *. rewrite IH. reflexivity.
Qed.

(** ** More on [kill] and [killall] *)

Lemma killAll_run (st : State) :
  killAllCommand [] st =
  (Ret OK,
   {| pids := ∅; forks := forks st; launches := launches st;
      trace := trace st ++ [EvPrint OutEraseLine; EvPrint (OutKill "killall")]
                        ++ (EvKill <$> elements (pids st)) |}).
Proof.
  unfold killAllCommand. cbn [length].
  rewrite decide_False by apply length_neq_refl.
  run. rewrite for_each_kill. run. by rewrite <- !app_assoc.
Qed.

Lemma kill_run (a : string) (pid : Z) (st : State) :
  stoi a = inr pid -> pid ∈ pids st ->
  killCommand [a] st =
  (Ret OK,
   {| pids := pids st ∖ {[pid]}; forks := forks st; launches := launches st;
      trace := trace st ++ [EvPrint OutEraseLine; EvPrint (OutKill ("kill " +:+ a));
                            EvKill pid] |}).
Proof.
  intros Hstoi Hin. unfold killCommand. cbn [length].
  rewrite decide_False by apply length_neq_refl.
  run. rewrite Hstoi. run.
  rewrite decide_False by (intros H; by apply H).
  run. by rewrite <- !app_assoc.
Qed.

(** X4. [kill] of a tracked identifier returns [OK], sends the forced
    termination signal to that identifier and to no other, and removes it
    and nothing else from the job table, which has one entry less. *)
Theorem kill_tracked_pid (a : string) (pid : Z) (st : State) :
  stoi a = inr pid -> pid ∈ pids st ->
  let r := killCommand [a] st in
  r.1 = Ret OK /\
  pids r.2 = pids st ∖ {[pid]} /\
  (forall q, q ∈ pids r.2 <-> q ∈ pids st /\ q <> pid) /\
  S (size (pids r.2)) = size (pids st) /\
  trace r.2 = trace st ++ [EvPrint OutEraseLine; EvPrint (OutKill ("kill " +:+ a));
                           EvKill pid].
Proof.
  intros Hstoi Hin r. subst r. rewrite (kill_run a pid st Hstoi Hin).
  cbn [fst snd pids trace].
  split; [done|]. split; [done|]. split; [|split; [|done]].
  - intros q. rewrite elem_of_difference, not_elem_of_singleton. tauto.
  - rewrite size_difference by (by apply singleton_subseteq_l).
    rewrite size_singleton.
    assert (size (pids st) <> 0%nat) as Hsize.
    { intros H0. apply size_empty_inv in H0. apply (H0 pid) in Hin.
      by apply not_elem_of_empty in Hin. }
    lia.
Qed.

Lemma kill_tracked_pid_witness :
  (killCommand ["1000"]
     {| pids := {[1000; 1001]}; forks := 2; launches := []; trace := [] |}).1
  = Ret OK.
Proof.
  apply (kill_tracked_pid "1000" 1000
           {| pids := {[1000; 1001]}; forks := 2; launches := []; trace := [] |}).
  - reflexivity.
  - cbn [pids]. apply elem_of_union_l. by apply elem_of_singleton.
Defined.

(** X5. Once [kill] has run with an argument that parses as an integer, the
    same [kill] again returns [INVALID_PID] and changes nothing: an
    identifier is signalled at most once. *)
Theorem kill_again_is_invalid (a : string) (pid : Z) (st : State) :
  stoi a = inr pid ->
  let st' := (killCommand [a] st).2 in
  killCommand [a] st' = (Ret INVALID_PID, st').
Proof.
  intros Hstoi st'. subst st'.
  destruct (decide (pid ∈ pids st)) as [Hin|Hnot].
  - rewrite (kill_run a pid st Hstoi Hin). cbn [snd].
    apply (kill_not_tracked a pid); [done|]. cbn [pids].
    intros Hq. apply elem_of_difference in Hq as [_ Hq].
    apply Hq. by apply elem_of_singleton.
  - rewrite (kill_not_tracked a pid st Hstoi Hnot). cbn [snd].
    by apply (kill_not_tracked a pid).
Qed.

Lemma kill_again_is_invalid_witness :
  let st' := (killCommand ["1000"]
                {| pids := {[1000]}; forks := 1; launches := []; trace := [] |}).2 in
  killCommand ["1000"] st' = (Ret INVALID_PID, st').
Proof.
  apply (kill_again_is_invalid "1000" 1000). reflexivity.
Defined.

(** X6. After [killall] nothing is tracked: [kill] of any integer returns
    [INVALID_PID] and [pids] lists no identifier. *)
Theorem nothing_tracked_after_killall (a : string) (pid : Z) (st : State) :
  stoi a = inr pid ->
  let st' := (killAllCommand [] st).2 in
  killCommand [a] st' = (Ret INVALID_PID, st') /\
  showPids [] st' =
  (Ret OK, {| pids := ∅; forks := forks st'; launches := launches st';
              trace := trace st' ++ [EvPrint (OutPids [])] |}).
Proof.
  intros Hstoi st'. subst st'. rewrite killAll_run. cbn [snd]. split.
  - apply (kill_not_tracked a pid); [done|]. cbn [pids]. apply not_elem_of_empty.
  - unfold showPids. cbn [length].
    rewrite decide_False by apply length_neq_refl.
    run. by rewrite elements_empty.
Qed.

Lemma nothing_tracked_after_killall_witness :
  let st' := (killAllCommand []
                {| pids := {[7]}; forks := 1; launches := []; trace := [] |}).2 in
  killCommand ["7"] st' = (Ret INVALID_PID, st').
Proof.
  apply (nothing_tracked_after_killall "7" 7). reflexivity.
Defined.

(** ** More on the launcher *)

Lemma createProcess_not_parent (env : Env) (tokens : list string) (priority : Z)
    (st : State) :
  ~ 0 < fork_ret env (forks st) ->
  (createProcess env tokens priority st).1 <> Ret OK /\
  pids (createProcess env tokens priority st).2 = pids st /\
  (fork_ret env (forks st) < 0 ->
   (createProcess env tokens priority st).1 = Ret FORK_ERROR).
Proof.
  intros Hpid. unfold createProcess. run.
  destruct (Z.ltb_spec (fork_ret env (forks st)) 0) as [Hneg|Hpos].
  - by cbn [fst snd pids].
  - destruct (Z.eqb_spec (fork_ret env (forks st)) 0) as [Hzero|?]; [|lia].
    unfold tokensToArgv. destruct tokens as [|t ts]; cbn [fmap list_fmap app]; run.
    + repeat split; [done|lia].
    + unfold execvp, exec. run.
      destruct (exec_replaces env _ _); cbn [fst snd pids]; repeat split; (done || lia).
Qed.

(** X7. The launcher reports [OK] exactly when [fork] returns a positive
    value.  It then tracks that value and nothing else new; otherwise it leaves
    the job table as it was, and reports [FORK_ERROR] when the value is
    negative.  Either way it has called [fork] once. *)
Theorem launcher_outcome (env : Env) (tokens : list string) (priority : Z)
    (st : State) :
  let pid := fork_ret env (forks st) in
  let r := createProcess env tokens priority st in
  (r.1 = Ret OK <-> 0 < pid) /\
  (0 < pid -> pids r.2 = {[pid]} ∪ pids st /\
              trace r.2 = trace st ++ [EvFork pid; EvSetPriority pid priority]) /\
  (~ 0 < pid -> pids r.2 = pids st) /\
  (pid < 0 -> r.1 = Ret FORK_ERROR) /\
  forks r.2 = S (forks st).
Proof.
  intros pid r. subst pid r.
  destruct (decide (0 < fork_ret env (forks st))) as [Hpos|Hnot].
  - rewrite (createProcess_parent env tokens priority st Hpos).
    cbn [fst snd pids trace forks].
    split; [done|]. split; [done|]. split; [done|]. split; [lia|done].
  - destruct (createProcess_not_parent env tokens priority st Hnot)
      as (Hfail & Hpids & Herr).
    split; [split; [intros H; by destruct Hfail|done]|].
    split; [done|]. split; [done|]. split; [done|].
    apply createProcess_forks.
Qed.

Lemma launcher_outcome_witness :
  pids (createProcess env_parent ["sleep"; "100"] 0 initial).2 = {[1000]} ∪ ∅.
Proof.
  pose proof (launcher_outcome env_parent ["sleep"; "100"] 0 initial) as H.
  cbv zeta in H. destruct H as (_ & Hparent & _).
  apply Hparent. cbn [fork_ret env_parent forks initial]. lia.
Defined.

(** X8. A stream without [&&] is one launch request: [createProcesses] is the
    launcher run once on the whole stream with neutral priority, and when that
    succeeds with a fresh identifier the job table has exactly one entry
    more. *)
Theorem single_request (env : Env) (tokens : list string) (st : State) :
  "&&" ∉ tokens ->
  let pid := fork_ret env (forks st) in
  let r := createProcesses env tokens st in
  r = createProcess env tokens 0 st /\
  launches r.2 = launches st ++ [(tokensToArgv tokens, 0)] /\
  (0 < pid -> pid ∉ pids st -> size (pids r.2) = S (size (pids st))).
Proof.
  intros Hsep pid r. subst pid r.
  assert (createProcesses env tokens st = createProcess env tokens 0 st) as ->.
  { unfold createProcesses.
    rewrite <- (app_nil_r tokens) at 1.
    by rewrite createProcesses_loop_skip. }
  split; [done|]. split; [apply createProcess_launches|].
  intros Hpos Hfresh. rewrite createProcess_parent by done. cbn [snd pids].
  rewrite size_union by (by apply disjoint_singleton_l).
  by rewrite size_singleton.
Qed.

Lemma single_request_witness :
  createProcesses env_parent ["sleep"; "100"] initial
  = createProcess env_parent ["sleep"; "100"] 0 initial.
Proof.
  apply (single_request env_parent ["sleep"; "100"] initial).
  intros Hin. repeat (apply elem_of_cons in Hin as [Hin|Hin]; [discriminate|]).
  by apply elem_of_nil in Hin.
Defined.

(** X9. Launch, then [kill] of the new identifier: when [fork] returns a
    fresh positive identifier, both report [OK] and the job table is the one
    before the launch. *)
Theorem launch_then_kill (env : Env) (tokens : list string) (priority : Z)
    (a : string) (st : State) :
  0 < fork_ret env (forks st) ->
  fork_ret env (forks st) ∉ pids st ->
  stoi a = inr (fork_ret env (forks st)) ->
  let launched := createProcess env tokens priority st in
  let killed := killCommand [a] launched.2 in
  launched.1 = Ret OK /\ killed.1 = Ret OK /\ pids killed.2 = pids st.
Proof.
  intros Hpos Hfresh Hstoi launched killed. subst launched killed.
  rewrite createProcess_parent by done. cbn [fst snd].
  rewrite (kill_run a _ _ Hstoi)
    by (cbn [pids]; apply elem_of_union_l; by apply elem_of_singleton).
  cbn [fst snd pids]. split; [done|]. split; [done|].
  apply set_eq. intros q.
  rewrite elem_of_difference, elem_of_union, !elem_of_singleton.
  split; [intros [[->|Hq] Hne]; [done|done]|].
  intros Hq. split; [by right|]. intros ->. by apply Hfresh.
Qed.

Lemma launch_then_kill_witness :
  pids (killCommand ["1000"]
          (createProcess env_parent ["sleep"; "100"] 0 initial).2).2 = ∅.
Proof.
  apply (launch_then_kill env_parent ["sleep"; "100"] 0 "1000" initial).
  - cbn [fork_ret env_parent forks initial]. lia.
  - cbn [pids initial]. apply not_elem_of_empty.
  - reflexivity.
Defined.


(** ** Counting the processes of a line *)

Lemma createProcesses_groups (env : Env) (tokens : list string) (st : State) :
  createProcesses env tokens st = launch_in_order env (conj_groups tokens) st.
Proof.
  unfold createProcesses. rewrite createProcesses_loop_groups.
  pose proof (conj_groups_nonempty tokens).
  by destruct (conj_groups tokens).
Qed.

Lemma conj_groups_length (tokens : list string) :
  length (conj_groups tokens) = S (length (filter (fun t => t = "&&") tokens)).
Proof.
  induction tokens as [|arg rest IH]; [reflexivity|]. cbn [conj_groups].
  destruct (String.eqb arg "&&") eqn:E.
  - apply String.eqb_eq in E as ->. rewrite filter_cons_True by done.
    cbn [length]. by rewrite IH.
  - apply String.eqb_neq in E. rewrite filter_cons_False by done.
    pose proof (conj_groups_nonempty rest).
    destruct (conj_groups rest); [done|]. by cbn [length] in *.
Qed.

Lemma launch_in_order_forks (env : Env) (groups : list (list string)) (st : State) :
  groups <> [] ->
  exists k : nat,
    (0 < k <= length groups)%nat /\
    forks (launch_in_order env groups st).2 = (forks st + k)%nat /\
    length (launches (launch_in_order env groups st).2)
      = (length (launches st) + k)%nat /\
    ((launch_in_order env groups st).1 = Ret OK -> k = length groups).
Proof.
  revert st. induction groups as [|group rest IH]; intros st Hne; [done|].
  destruct rest as [|group' rest'].
  - exists 1%nat. cbn [launch_in_order length].
    rewrite createProcess_forks, createProcess_launches, length_app.
    cbn [length]. repeat split; lia.
  - rewrite launch_in_order_cons by done. unfold bind, ret.
    pose proof (createProcess_forks env group 0 st) as Hf.
    pose proof (createProcess_launches env group 0 st) as Hl.
    apply (f_equal length) in Hl. rewrite length_app in Hl. cbn [length] in Hl.
    destruct (createProcess env group 0 st) as [[e| | |] st1]; cbn [fst snd] in Hf, Hl.
    + destruct (decide (e <> OK)) as [Hfail|Hok].
      * exists 1%nat. cbn [length fst snd].
        split; [lia|]. split; [lia|]. split; [lia|].
        intros [= ->]. by destruct Hfail.
      * destruct (IH st1) as (k & Hk & Hfk & Hlk & Hall); [done|].
        exists (S k). cbn [length] in *.
        split; [lia|]. split; [lia|]. split; [lia|].
        intros Hok'. specialize (Hall Hok'). lia.
    + exists 1%nat. cbn [length fst snd]. repeat split; (lia || done).
    + exists 1%nat. cbn [length fst snd]. repeat split; (lia || done).
    + exists 1%nat. cbn [length fst snd]. repeat split; (lia || done).
Qed.

(** X11. One line makes the shell call [fork] at least once and at most once
    more than it has [&&] tokens, each call for one invocation of the
    launcher; when [createProcesses] reports [OK] it is exactly once more. *)
Theorem forks_per_line (env : Env) (tokens : list string) (st : State) :
  let r := createProcesses env tokens st in
  let conjunctions := length (filter (fun t => t = "&&") tokens) in
  (forks st < forks r.2 <= forks st + S conjunctions)%nat /\
  (forks r.2 - forks st = length (launches r.2) - length (launches st))%nat /\
  (r.1 = Ret OK -> forks r.2 = (forks st + S conjunctions)%nat).
Proof.
  intros r conjunctions. subst r conjunctions.
  rewrite createProcesses_groups, <- conj_groups_length.
  destruct (launch_in_order_forks env (conj_groups tokens) st)
    as (k & Hk & Hf & Hl & Hall); [apply conj_groups_nonempty|].
  split; [lia|]. split; [lia|].
  intros Hok. specialize (Hall Hok). lia.
Qed.

(** ** The duplicate *)

Lemma split_cons_nonempty (inputBuffer command : string) (arguments : list string) :
  splitStringBySpace inputBuffer = command :: arguments -> inputBuffer <> "".
Proof. by intros H ->. Qed.

(** X12. In the duplicate that [fork] creates, when the program is not
    found, the launcher does not end the process: the turn of the loop of
    [main] prints the error and returns, so that the duplicate goes on reading
    commands, with its copy of the job table unchanged. *)
Theorem duplicate_keeps_reading (env : Env) (inputBuffer command : string)
    (arguments : list string) (st : State) :
  splitStringBySpace inputBuffer = command :: arguments ->
  terminalCommands env !! command = None ->
  "&&" ∉ command :: arguments ->
  fork_ret env (forks st) = 0 ->
  exec_replaces env command (tokensToArgv (command :: arguments)) = false ->
  main_iteration env inputBuffer st =
  (Ret tt,
   {| pids := pids st; forks := S (forks st);
      launches := launches st ++ [(tokensToArgv (command :: arguments), 0)];
      trace := trace st ++ [EvFork 0;
                            EvExec command (tokensToArgv (command :: arguments));
                            EvPrint (OutError INVALID_PROCESS_INPUT)] |}).
Proof.
  intros Htok Hmiss Hsep Hchild Hexec. unfold main_iteration.
  rewrite decide_False by (by eapply split_cons_nonempty). rewrite Htok.
  assert (executeCommand env (command :: arguments) st = (Ret UNKNOWN_COMMAND, st)) as Hx.
  { unfold executeCommand. run. unfold try_catch_out_of_range, at_command.
    by rewrite Hmiss. }
  unfold bind at 1. rewrite Hx. unfold bind at 1.
  rewrite decide_True by done.
  unfold createProcesses.
  rewrite <- (app_nil_r (command :: arguments)) at 1.
  rewrite createProcesses_loop_skip by done.
  cbn [createProcesses_loop app].
  unfold createProcess. run. rewrite Hchild. cbn [Z.ltb Z.eqb Z.compare].
  unfold tokensToArgv at 1. cbn [fmap list_fmap app]. run.
  unfold execvp, exec. run.
  change (Some command :: (Some <$> arguments) ++ [None])
    with (tokensToArgv (command :: arguments)).
  rewrite Hexec. run.
  rewrite decide_True by done. run.
  by rewrite <- !app_assoc.
Qed.

Lemma duplicate_keeps_reading_witness :
  main_iteration env_child_exec_fails "foo bar" initial =
  (Ret tt,
   {| pids := ∅; forks := 1;
      launches := [(tokensToArgv ["foo"; "bar"], 0)];
      trace := [EvFork 0; EvExec "foo" (tokensToArgv ["foo"; "bar"]);
                EvPrint (OutError INVALID_PROCESS_INPUT)] |}).
Proof.
  apply (duplicate_keeps_reading env_child_exec_fails "foo bar" "foo" ["bar"] initial);
    [reflexivity|reflexivity| |reflexivity|reflexivity].
  intros Hin. repeat (apply elem_of_cons in Hin as [Hin|Hin]; [discriminate|]).
  by apply elem_of_nil in Hin.
Defined.

(** ** The dispatcher *)

Lemma registry_lookup (env : Env) (name : string) (handler : TerminalCommand) :
  terminalCommands env !! name = Some handler -> (name, handler) ∈ registry env.
Proof. apply elem_of_list_to_map_2. Qed.

Lemma registry_cases (env : Env) (name : string) (handler : TerminalCommand) :
  (name, handler) ∈ registry env ->
  handler = listDirContent env \/ handler = printFileContents env \/
  handler = openNotepad env \/ handler = killCommand \/
  handler = killAllCommand \/ handler = showPids \/ handler = niceCommand env.
Proof.
  unfold registry. intros Hreg.
  repeat (apply elem_of_cons in Hreg as [[= -> ->]|Hreg]; [tauto|]).
  by apply elem_of_nil in Hreg.
Qed.

Lemma createProcess_returns (env : Env) (tokens : list string) (priority : Z)
    (st : State) (e : CommandError) :
  (createProcess env tokens priority st).1 = Ret e ->
  e = OK \/ e = FORK_ERROR \/ e = INVALID_PROCESS_INPUT.
Proof.
  unfold createProcess. run.
  destruct (fork_ret env (forks st) <? 0); [intros [= <-]; tauto|].
  destruct (fork_ret env (forks st) =? 0); [|intros [= <-]; tauto].
  unfold tokensToArgv. destruct tokens as [|t ts]; cbn [fmap list_fmap app]; run;
    [discriminate|].
  unfold execvp, exec. run.
  destruct (exec_replaces env _ _); cbn [fst]; [discriminate|intros [= <-]; tauto].
Qed.

(** No handler of the registry returns [UNKNOWN_COMMAND]. *)
Lemma handlers_never_unknown (env : Env) (name : string) (handler : TerminalCommand)
    (arguments : list string) (st : State) :
  (name, handler) ∈ registry env ->
  (handler arguments st).1 <> Ret UNKNOWN_COMMAND.
Proof.
  intros Hreg.
  destruct (registry_cases env name handler Hreg)
    as [->|[->|[->|[->|[->|[->| ->]]]]]].
  - unfold listDirContent. destruct (decide _); [done|]. by run.
  - unfold printFileContents. destruct (decide _) as [|Hlen]; [done|].
    destruct arguments as [|path [|]]; try (by destruct Hlen). run.
    destruct (is_regular_file env path); [|done].
    destruct (ifstream_opens env path); [|done]. by run.
  - unfold openNotepad. run.
    destruct (fork_ret env (forks st) =? -1); [done|].
    destruct (fork_ret env (forks st) =? 0); [|by run].
    unfold execlp, exec. run. by destruct (exec_replaces env _ _).
  - unfold killCommand. destruct (decide _) as [|Hlen]; [done|].
    destruct arguments as [|a [|]]; try (by destruct Hlen). run.
    destruct (stoi a) as [e|pid]; [done|]. run.
    destruct (decide (pid ∉ pids st)); [done|]. by run.
  - unfold killAllCommand. destruct (decide _) as [|Hlen]; [done|].
    destruct arguments; [|by destruct Hlen].
    run. rewrite for_each_kill. by run.
  - unfold showPids. destruct (decide _); [done|]. by run.
  - unfold niceCommand. destruct (decide _) as [|Hlen]; [done|].
    destruct arguments as [|a [|c [|]]]; try (by destruct Hlen). run.
    destruct (stoi a) as [e|prio]; [done|]. run.
    by destruct (createProcess env [c] prio st) as [[e| | |] st'].
Qed.

(** X13. The dispatcher answers [UNKNOWN_COMMAND], the signal for the
    external launch, in two cases only: the first token is not a name of the
    registry, or the handler let [std::out_of_range] escape. *)
Theorem unknown_command_iff (env : Env) (command : string)
    (arguments : list string) (st : State) :
  (executeCommand env (command :: arguments) st).1 = Ret UNKNOWN_COMMAND
  <->
  terminalCommands env !! command = None \/
  exists handler, terminalCommands env !! command = Some handler /\
                  (handler arguments st).1 = Throw out_of_range.
Proof.
  unfold executeCommand. run. unfold try_catch_out_of_range, at_command.
  change (drop 1 (command :: arguments)) with arguments.
  destruct (terminalCommands env !! command) as [handler|] eqn:Hreg.
  - run.
    pose proof (handlers_never_unknown env command handler arguments st
                  (registry_lookup env command handler Hreg)) as Hnever.
    destruct (handler arguments st) as [[e|[]| |] st'] eqn:Hrun; cbn [fst] in *.
    + split; [intros [= ->]; by destruct Hnever|].
      intros [?|(h & [= <-] & Hthrow)]; [done|]. by rewrite Hrun in Hthrow.
    + split; [done|].
      intros [?|(h & [= <-] & Hthrow)]; [done|]. by rewrite Hrun in Hthrow.
    + split; [|done]. intros _. right. exists handler. by rewrite Hrun.
    + split; [done|].
      intros [?|(h & [= <-] & Hthrow)]; [done|]. by rewrite Hrun in Hthrow.
    + split; [done|].
      intros [?|(h & [= <-] & Hthrow)]; [done|]. by rewrite Hrun in Hthrow.
  - cbn [fst]. split; [by left|done].
Qed.

Lemma split_kill_line (a : string) :
  space_free a = true -> a <> "" ->
  splitStringBySpace ("kill " +:+ a) = ["kill"; a].
Proof.
  intros Hfree Hne.
  change ("kill " +:+ a) with ("kill" +:+ String " " a).
  rewrite split_field by done. by rewrite split_last.
Qed.

(** X14. An argument of [kill] that is an integer too large for an [int]
    makes [std::stoi] throw [std::out_of_range], which the dispatcher takes
    for a registry miss: the line is then launched as an external program
    named [kill]. *)
Theorem kill_out_of_range_is_launched (env : Env) (a : string) (st : State) :
  stoi a = inl out_of_range -> space_free a = true ->
  executeCommand env ["kill"; a] st = (Ret UNKNOWN_COMMAND, st) /\
  main_iteration env ("kill " +:+ a) st =
  (e <- createProcesses env ["kill"; a] ;;
   if decide (e <> OK) then print (OutError e) else ret tt) st.
Proof.
  intros Hstoi Hfree.
  assert (a <> "") as Hne by (intros ->; discriminate Hstoi).
  assert (executeCommand env ["kill"; a] st = (Ret UNKNOWN_COMMAND, st)) as Hx.
  { unfold executeCommand. run. unfold try_catch_out_of_range, at_command.
    rewrite lookup_kill. run. change (drop 1 ["kill"; a]) with [a].
    by rewrite (kill_malformed a out_of_range st Hstoi). }
  split; [exact Hx|]. unfold main_iteration.
  rewrite decide_False by done.
  rewrite split_kill_line by done.
  unfold bind at 1. rewrite Hx. unfold bind at 1.
  by rewrite decide_True.
Qed.

Lemma kill_out_of_range_is_launched_witness :
  executeCommand env_parent ["kill"; "99999999999"] initial
  = (Ret UNKNOWN_COMMAND, initial).
Proof.
  apply (kill_out_of_range_is_launched env_parent "99999999999" initial);
    reflexivity.
Defined.

(** ** The built-ins that list, and [notepad] *)

Lemma listing_builtins_run (env : Env) (handler : TerminalCommand)
    (arguments : list string) (st : State) :
  handler = listDirContent env \/ handler = printFileContents env \/
  handler = showPids ->
  exists e outs,
    handler arguments st =
    (Ret e, {| pids := pids st; forks := forks st; launches := launches st;
               trace := trace st ++ (EvPrint <$> outs) |}).
Proof.
  assert (forall e : CommandError, (Ret e, st) =
            (Ret e, {| pids := pids st; forks := forks st; launches := launches st;
                       trace := trace st ++ (EvPrint <$> []) |})) as Hsame.
  { intros e. cbn [fmap list_fmap]. by rewrite app_nil_r, state_eta. }
  intros [->|[->| ->]].
  - unfold listDirContent. destruct (decide _).
    + exists INVALID_ARGUMENT_NUMBER, []. apply Hsame.
    + exists OK, [OutDir (current_dir env)]. by run.
  - unfold printFileContents. destruct (decide _) as [|Hlen].
    + exists INVALID_ARGUMENT_NUMBER, []. apply Hsame.
    + destruct arguments as [|path [|]]; try (by destruct Hlen). run.
      destruct (is_regular_file env path);
        [|exists INVALID_FILE_PATH, []; apply Hsame].
      destruct (ifstream_opens env path);
        [|exists INVALID_FILE_PATH, []; apply Hsame].
      exists OK, [OutEraseLine; OutKitten ("cat " +:+ path); OutFile path].
      cbn [negb fmap list_fmap]. run. by rewrite <- !app_assoc.
  - unfold showPids. destruct (decide _).
    + exists INVALID_ARGUMENT_NUMBER, []. apply Hsame.
    + exists OK, [OutPids (elements (pids st))]. by run.
Qed.

(** X15. [ls], [cat] and [pids] only print: whatever their arguments, they
    leave the job table, the number of [fork] calls and the launches as they
    were, and what they add to the trace are prints, no signal. *)
Theorem listing_builtins_only_print (env : Env) (handler : TerminalCommand)
    (arguments : list string) (st : State) :
  handler = listDirContent env \/ handler = printFileContents env \/
  handler = showPids ->
  exists outs,
    (handler arguments st).2 =
    {| pids := pids st; forks := forks st; launches := launches st;
       trace := trace st ++ (EvPrint <$> outs) |}.
Proof.
  intros Hhandler.
  destruct (listing_builtins_run env handler arguments st Hhandler)
    as (e & outs & Hrun).
  exists outs. by rewrite Hrun.
Qed.

Lemma listing_builtins_only_print_witness :
  exists outs,
    (showPids [] initial).2 =
    {| pids := pids initial; forks := forks initial;
       launches := launches initial;
       trace := trace initial ++ (EvPrint <$> outs) |}.
Proof.
  apply (listing_builtins_only_print env_parent showPids [] initial).
  right. right. reflexivity.
Defined.


(** X17. [notepad] tracks its process like the launcher tracks a job: when
    [fork] returns a positive identifier it returns [OK] with the job table
    that a launch would give, without an invocation of the launcher and
    without setting a priority, and [kill] of that identifier then succeeds.
    When [fork] returns -1 it returns [UNABLE_TO_OPEN_NOTEPAD] and the job
    table is unchanged. *)
Theorem notepad_job (env : Env) (arguments : list string) (a : string) (st : State) :
  let pid := fork_ret env (forks st) in
  let r := openNotepad env arguments st in
  (0 < pid ->
   r = (Ret OK, {| pids := {[pid]} ∪ pids st; forks := S (forks st);
                   launches := launches st;
                   trace := trace st ++ [EvFork pid; EvPrint (OutNotepad pid)] |}) /\
   pids r.2 = pids (createProcess env ["notepad.exe"] 0 st).2 /\
   (stoi a = inr pid -> (killCommand [a] r.2).1 = Ret OK)) /\
  (pid = -1 ->
   r = (Ret UNABLE_TO_OPEN_NOTEPAD,
        {| pids := pids st; forks := S (forks st); launches := launches st;
           trace := trace st ++ [EvFork pid] |})).
Proof.
  intros pid r. subst pid r. split.
  - intros Hpos.
    assert (openNotepad env arguments st =
            (Ret OK, {| pids := {[fork_ret env (forks st)]} ∪ pids st;
                        forks := S (forks st); launches := launches st;
                        trace := trace st ++ [EvFork (fork_ret env (forks st));
                                              EvPrint (OutNotepad (fork_ret env (forks st)))] |}))
      as Hrun.
    { unfold openNotepad. run.
      destruct (Z.eqb_spec (fork_ret env (forks st)) (-1)) as [?|_]; [lia|].
      destruct (Z.eqb_spec (fork_ret env (forks st)) 0) as [?|_]; [lia|].
      run. by rewrite <- !app_assoc. }
    rewrite Hrun. split; [done|]. split.
    + by rewrite createProcess_parent.
    + intros Hstoi. cbn [snd].
      rewrite (kill_run a _ _ Hstoi); [done|].
      cbn [pids]. apply elem_of_union_l. by apply elem_of_singleton.
  - intros Hfail. unfold openNotepad. run. by rewrite Hfail.
Qed.

Lemma notepad_job_witness :
  openNotepad env_parent [] initial =
  (Ret OK, {| pids := {[1000]} ∪ ∅; forks := 1; launches := [];
              trace := [EvFork 1000; EvPrint (OutNotepad 1000)] |}).
Proof.
  pose proof (notepad_job env_parent [] "1000" initial) as H.
  cbv zeta in H. destruct H as [Hpos _].
  apply Hpos. cbn [fork_ret env_parent forks initial]. lia.
Defined.

(** ** The job table holds only processes of the shell *)

Lemma created_mono (env : Env) (n m : nat) (pid : Z) :
  (n <= m)%nat -> created env n pid -> created env m pid.
Proof.
  intros Hle (H0 & H1 & k & Hk & Hfork).
  split; [done|]. split; [done|]. exists k. split; [lia|done].
Qed.

Lemma signal_created_mono (env : Env) (n m : nat) (e : event) :
  (n <= m)%nat -> signal_created env n e -> signal_created env m e.
Proof. intros Hle. destruct e; cbn [signal_created]; try done. by apply created_mono. Qed.

(** A step keeps [own_jobs] when it calls [fork] no less, tracks only what
    was tracked or what the shell created, and signals only what the shell
    created. *)
Lemma own_jobs_step (env : Env) (st st' : State) (events : list event) :
  own_jobs env st ->
  (forks st <= forks st')%nat ->
  (forall pid, pid ∈ pids st' -> pid ∈ pids st \/ created env (forks st') pid) ->
  trace st' = trace st ++ events ->
  Forall (signal_created env (forks st')) events ->
  own_jobs env st'.
Proof.
  intros [Htable Hsignals] Hforks Hpids Htrace Hevents. split.
  - intros pid Hin. destruct (Hpids pid Hin) as [Hold|Hnew]; [|done].
    eapply created_mono; [exact Hforks|]. by apply Htable.
  - rewrite Htrace. apply Forall_app. split; [|done].
    eapply Forall_impl; [exact Hsignals|].
    intros e. by apply signal_created_mono.
Qed.

Lemma own_jobs_bind {A B} (env : Env) (m : M A) (k : A -> M B) (st : State) :
  (forall st0, own_jobs env st0 -> own_jobs env (m st0).2) ->
  (forall a st0, own_jobs env st0 -> own_jobs env (k a st0).2) ->
  own_jobs env st -> own_jobs env (bind m k st).2.
Proof.
  intros Hm Hk Hown. unfold bind. specialize (Hm st Hown).
  destruct (m st) as [[a| | |] st1]; cbn [snd] in *; try done.
  by apply Hk.
Qed.

Ltac own_step st events :=
  apply (own_jobs_step _ st _ events);
  [ done
  | cbn [forks]; lia
  | cbn [pids forks]
  | cbn [trace]; rewrite <- ?app_assoc; try reflexivity
  | cbn [forks];
    repeat first [apply Forall_nil_2 | apply Forall_cons_2];
    try exact I ].

Lemma own_jobs_createProcess (env : Env) (tokens : list string) (priority : Z)
    (st : State) :
  own_jobs env st -> own_jobs env (createProcess env tokens priority st).2.
Proof.
  intros Hown. unfold createProcess. run.
  destruct (Z.ltb_spec (fork_ret env (forks st)) 0) as [Hneg|Hpos].
  - cbn [snd]. own_step st [EvFork (fork_ret env (forks st))]. by left.
  - destruct (Z.eqb_spec (fork_ret env (forks st)) 0) as [Hzero|Hnz].
    + unfold tokensToArgv. destruct tokens as [|t ts]; cbn [fmap list_fmap app]; run.
      * unfold execvp, exec. run. cbn [snd].
        own_step st [EvFork (fork_ret env (forks st))]. by left.
      * unfold execvp, exec. run.
        destruct (exec_replaces env _ _); cbn [snd];
          own_step st [EvFork (fork_ret env (forks st));
                       EvExec t (Some t :: (Some <$> ts) ++ [None])]; by left.
    + run. cbn [snd].
      own_step st [EvFork (fork_ret env (forks st));
                   EvSetPriority (fork_ret env (forks st)) priority].
      intros pid [->%elem_of_singleton|Hin]%elem_of_union; [right|by left].
      split; [lia|]. split; [lia|]. exists (forks st). split; [lia|done].
Qed.

Lemma own_jobs_createProcesses_loop (env : Env) (tokens currentTokens : list string)
    (e : CommandError) (st : State) :
  own_jobs env st ->
  own_jobs env (createProcesses_loop env tokens currentTokens e st).2.
Proof.
  revert currentTokens e st.
  induction tokens as [|arg rest IH]; intros cur e st Hown;
    cbn [createProcesses_loop]; [by apply own_jobs_createProcess|].
  apply own_jobs_bind; [| |done].
  - intros st0 Hown0. destruct (String.eqb arg "&&"); [|done].
    apply own_jobs_bind; [|done|done].
    intros st1. apply own_jobs_createProcess.
  - intros [e' cur'] st0 Hown0.
    destruct (decide (e' <> OK)); [done|]. by apply IH.
Qed.

Lemma own_jobs_handlers (env : Env) (name : string) (handler : TerminalCommand)
    (arguments : list string) (st : State) :
  (name, handler) ∈ registry env ->
  own_jobs env st -> own_jobs env (handler arguments st).2.
Proof.
  intros Hreg Hown.
  destruct (registry_cases env name handler Hreg)
    as [->|[->|[->|[->|[->|[->| ->]]]]]].
  - unfold listDirContent. destruct (decide _); [done|]. run. cbn [snd].
    own_step st [EvPrint (OutDir (current_dir env))]. by left.
  - unfold printFileContents. destruct (decide _) as [|Hlen]; [done|].
    destruct arguments as [|path [|]]; try (by destruct Hlen). run.
    destruct (is_regular_file env path); [|done].
    destruct (ifstream_opens env path); [|done]. cbn [negb]. run. cbn [snd].
    own_step st [EvPrint OutEraseLine; EvPrint (OutKitten ("cat " +:+ path));
                 EvPrint (OutFile path)]. by left.
  - unfold openNotepad. run.
    destruct (Z.eqb_spec (fork_ret env (forks st)) (-1)) as [Hfail|Hne1].
    + cbn [snd]. own_step st [EvFork (fork_ret env (forks st))]. by left.
    + destruct (Z.eqb_spec (fork_ret env (forks st)) 0) as [Hzero|Hne0].
      * unfold execlp, exec. run.
        destruct (exec_replaces env _ _); cbn [snd];
          own_step st [EvFork (fork_ret env (forks st));
                       EvExec "notepad.exe" [Some "notepad.exe"; None]]; by left.
      * run. cbn [snd].
        own_step st [EvFork (fork_ret env (forks st));
                     EvPrint (OutNotepad (fork_ret env (forks st)))].
        intros pid [->%elem_of_singleton|Hin]%elem_of_union; [right|by left].
        split; [done|]. split; [done|]. exists (forks st). split; [lia|done].
  - unfold killCommand. destruct (decide _) as [|Hlen]; [done|].
    destruct arguments as [|a [|]]; try (by destruct Hlen). run.
    destruct (stoi a) as [e|pid]; [done|]. run.
    destruct (decide (pid ∉ pids st)) as [|Hin]; [done|].
    apply dec_stable in Hin. run. cbn [snd].
    own_step st [EvPrint OutEraseLine; EvPrint (OutKill ("kill " +:+ a)); EvKill pid].
    + intros q Hq. left. by apply elem_of_difference in Hq as [Hq _].
    + cbn [signal_created]. by apply Hown.
  - unfold killAllCommand. destruct (decide _) as [|Hlen]; [done|].
    destruct arguments; [|by destruct Hlen].
    run. rewrite for_each_kill. run. cbn [snd].
    apply (own_jobs_step _ st _
             ([EvPrint OutEraseLine; EvPrint (OutKill "killall")]
                ++ (EvKill <$> elements (pids st)))); [done|done| | |].
    + cbn [pids]. intros pid Hin. by apply not_elem_of_empty in Hin.
    + cbn [trace]. by rewrite <- !app_assoc.
    + cbn [forks]. apply Forall_app. split; [repeat constructor|].
      apply Forall_fmap, Forall_forall. intros pid Hin.
      cbn [signal_created compose]. apply Hown. by apply elem_of_elements.
  - unfold showPids. destruct (decide _); [done|]. run. cbn [snd].
    own_step st [EvPrint (OutPids (elements (pids st)))]. by left.
  - unfold niceCommand. destruct (decide _) as [|Hlen]; [done|].
    destruct arguments as [|a [|c [|]]]; try (by destruct Hlen). run.
    destruct (stoi a) as [e|prio]; [done|]. run.
    pose proof (own_jobs_createProcess env [c] prio st Hown) as Hlaunch.
    by destruct (createProcess env [c] prio st) as [[e| | |] st'].
Qed.

Lemma own_jobs_executeCommand (env : Env) (tokens : list string) (st : State) :
  own_jobs env st -> own_jobs env (executeCommand env tokens st).2.
Proof.
  intros Hown. unfold executeCommand. destruct tokens as [|command arguments]; [done|].
  run. unfold try_catch_out_of_range, at_command.
  change (drop 1 (command :: arguments)) with arguments.
  destruct (terminalCommands env !! command) as [handler|] eqn:Hreg; [|done].
  run.
  pose proof (own_jobs_handlers env command handler arguments st
                (registry_lookup env command handler Hreg) Hown) as Hh.
  by destruct (handler arguments st) as [[e|[]| |] st'].
Qed.

Lemma own_jobs_main_iteration (env : Env) (inputBuffer : string) (st : State) :
  own_jobs env st -> own_jobs env (main_iteration env inputBuffer st).2.
Proof.
  intros Hown. unfold main_iteration. destruct (decide _); [done|].
  apply own_jobs_bind; [| |done].
  - intros st0. apply own_jobs_executeCommand.
  - intros e st0 Hown0. apply own_jobs_bind; [| |done].
    + intros st1 Hown1. destruct (decide _); [|done].
      by apply own_jobs_createProcesses_loop.
    + intros e' st1 Hown1. destruct (decide _); [|done].
      unfold print, emit. cbn [snd]. own_step st1 [EvPrint (OutError e')]. by left.
Qed.

(** X18. Whatever lines the shell reads, every identifier in its job table
    and every identifier it has sent the forced termination signal to is the
    value that one of its own [fork] calls returned, and is neither 0 nor -1:
    the shell never signals its own process group or every process. *)
Theorem shell_signals_only_its_jobs (env : Env) (lines : list string) (st : State) :
  own_jobs env st ->
  let st' := (main_loop env lines st).2 in
  (forall pid, pid ∈ pids st' -> created env (forks st') pid) /\
  (forall pid, EvKill pid ∈ trace st' ->
     pid <> 0 /\ pid <> -1 /\
     exists k : nat, (k < forks st')%nat /\ fork_ret env k = pid).
Proof.
  intros Hown st'. subst st'.
  assert (own_jobs env (main_loop env lines st).2) as [Htable Hsignals].
  { revert st Hown. induction lines as [|line rest IH]; intros st Hown; [done|].
    cbn [main_loop]. apply own_jobs_bind; [| |done].
    - intros st0. apply own_jobs_main_iteration.
    - intros _ st0. apply IH. }
  split; [exact Htable|].
  intros pid Hin. rewrite Forall_forall in Hsignals.
  exact (Hsignals _ Hin).
Qed.

Lemma shell_signals_only_its_jobs_witness :
  let st' := (main_loop env_parent ["sleep 100"; "kill 0"; "killall"] initial).2 in
  (forall pid, pid ∈ pids st' -> created env_parent (forks st') pid) /\
  (forall pid, EvKill pid ∈ trace st' ->
     pid <> 0 /\ pid <> -1 /\
     exists k : nat, (k < forks st')%nat /\ fork_ret env_parent k = pid).
Proof.
  apply (shell_signals_only_its_jobs env_parent
           ["sleep 100"; "kill 0"; "killall"] initial).
  split.
  - cbn [pids initial]. intros pid Hin. by apply not_elem_of_empty in Hin.
  - cbn [trace initial]. constructor.
Defined.

(** ** The interrupt handler: [closeTerminal] *)

Lemma padding_fits (w : winsize) (line : string) :
  ws_col w <= 65535 ->
  Z.of_nat (String.length line) / 2 <= ws_col w / 2 ->
  padding w line = ws_col w / 2 - Z.of_nat (String.length line) / 2 /\
  padding w line <= INT_MAX.
Proof.
  intros Hmax Hfit. unfold padding, INT_MAX.
  change (2 ^ 64) with 18446744073709551616.
  pose proof (Nat2Z.is_nonneg (String.length line)).
  Z.div_mod_to_equations. lia.
Qed.

Lemma padding_wraps (w : winsize) (line : string) :
  0 <= ws_col w ->
  Z.of_nat (String.length line) <= 65535 ->
  ws_col w / 2 < Z.of_nat (String.length line) / 2 ->
  INT_MAX < padding w line.
Proof.
  intros Hcol Hlen Hnarrow. unfold padding, INT_MAX.
  change (2 ^ 64) with 18446744073709551616.
  Z.div_mod_to_equations. lia.
Qed.

Lemma goodbye_line_fits (w : winsize) (line : string) (rest : list string)
    (screen : list write) :
  ws_col w <= 65535 ->
  Z.of_nat (String.length line) / 2 <= ws_col w / 2 ->
  goodbye_lines w (line :: rest) screen =
  goodbye_lines w rest
    (screen ++ for_int (ws_col w / 2 - Z.of_nat (String.length line) / 2) [WSpace]
            ++ [WText line; WEndl; WSleep 2]).
Proof.
  intros Hmax Hfit. destruct (padding_fits w line Hmax Hfit) as [Heq Hle].
  cbn [goodbye_lines].
  destruct (Z.leb_spec (padding w line) INT_MAX) as [_|?]; [|lia].
  by rewrite Heq.
Qed.

Lemma goodbye_line_wraps (w : winsize) (line : string) (rest : list string)
    (screen : list write) :
  0 <= ws_col w ->
  Z.of_nat (String.length line) <= 65535 ->
  ws_col w / 2 < Z.of_nat (String.length line) / 2 ->
  goodbye_lines w (line :: rest) screen =
  inl (screen ++ for_int (INT_MAX + 1) [WSpace]).
Proof.
  intros Hcol Hlen Hnarrow. pose proof (padding_wraps w line Hcol Hlen Hnarrow).
  cbn [goodbye_lines].
  destruct (Z.leb_spec (padding w line) INT_MAX) as [?|_]; [lia|]. reflexivity.
Qed.

(** X19. On a terminal of at least 42 columns [closeTerminal] writes its
    whole banner, each line of [goodbye] after the spaces that centre it, and
    ends in [exit(666)].  On a narrower terminal the number of spaces to write
    before a line wraps around to a value above [INT_MAX], and the handler
    ends in the overflow of its loop counter instead of in [exit]. *)
Theorem closeTerminal_needs_42_columns (w : winsize) (st : State) :
  0 <= ws_col w <= 65535 ->
  (42 <= ws_col w ->
   closeTerminal w st =
   Exits 666 (killAllCommand [] st).2
     ([WRed; WEndl] ++ ant_rows (ws_row w / 2) (ws_col w / 2)
      ++ mjoin (centred w <$> goodbye)
      ++ ant_rows (ws_row w / 4 - 1) (ws_col w / 2)
      ++ [WSleep 2; WReset; WEndl])) /\
  (ws_col w < 42 ->
   exists screen,
     closeTerminal w st = CounterOverflow (killAllCommand [] st).2 screen).
Proof.
  intros [Hmin Hmax]. split.
  - intros Hwide.
    assert (21 <= ws_col w / 2) as Hhalf by (Z.div_mod_to_equations; lia).
    unfold closeTerminal, goodbye.
    rewrite !goodbye_line_fits
      by (try done;
          match goal with
          | |- Z.of_nat (String.length ?l) / 2 <= _ =>
              let n := eval vm_compute in (Z.of_nat (String.length l) / 2) in
              change (Z.of_nat (String.length l) / 2) with n; lia
          end).
    cbn [goodbye_lines fmap list_fmap mjoin list_join]. unfold centred.
    f_equal. rewrite <- !app_assoc. cbn [app]. reflexivity.
  - intros Hnarrow.
    assert (ws_col w / 2 < 21) as Hhalf by (Z.div_mod_to_equations; lia).
    unfold closeTerminal, goodbye.
    destruct (decide (ws_col w / 2 < 6)) as [Hfirst|Hfirst].
    + rewrite goodbye_line_wraps; [by eexists|lia|done|done].
    + rewrite goodbye_line_fits;
        [|done|change (Z.of_nat (String.length "FUN BUG FACT:") / 2) with 6; lia].
      rewrite goodbye_line_wraps; [by eexists|lia|done|done].
Qed.

Lemma closeTerminal_needs_42_columns_witness :
  exists screen,
    closeTerminal {| ws_row := 24; ws_col := 40 |} initial
    = CounterOverflow (killAllCommand [] initial).2 screen.
Proof.
  pose proof (closeTerminal_needs_42_columns {| ws_row := 24; ws_col := 40 |} initial)
    as H.
  destruct H as [_ Hnarrow]; [cbn [ws_col]; lia|].
  apply Hnarrow. cbn [ws_col]. lia.
Defined.

(** X20. However [closeTerminal] ends, it has first sent the forced
    termination signal to every tracked identifier and emptied the job
    table. *)
Theorem closeTerminal_kills_every_job (w : winsize) (st : State) :
  let st' :=
    {| pids := ∅; forks := forks st; launches := launches st;
       trace := trace st ++ [EvPrint OutEraseLine; EvPrint (OutKill "killall")]
                         ++ (EvKill <$> elements (pids st)) |} in
  exists screen,
    closeTerminal w st = Exits 666 st' screen \/
    closeTerminal w st = CounterOverflow st' screen.
Proof.
  intros st'. subst st'. unfold closeTerminal. rewrite killAll_run. cbn [snd].
  destruct (goodbye_lines w goodbye _) as [screen|screen]; eexists; [by right|by left].
Qed.

(** ** What commands return *)

Lemma createProcesses_loop_returns (env : Env) (tokens currentTokens : list string)
    (st : State) (e : CommandError) :
  (createProcesses_loop env tokens currentTokens OK st).1 = Ret e ->
  e = OK \/ e = FORK_ERROR \/ e = INVALID_PROCESS_INPUT.
Proof.
  revert currentTokens st.
  induction tokens as [|arg rest IH]; intros cur st; cbn [createProcesses_loop].
  - apply createProcess_returns.
  - destruct (String.eqb arg "&&").
    + unfold bind, ret.
      pose proof (createProcess_returns env cur 0 st) as Hlaunch.
      destruct (createProcess env cur 0 st) as [[e'| | |] st1]; try discriminate.
      destruct (decide (e' <> OK)) as [Hfail|Hok].
      * intros [= <-]. by apply Hlaunch.
      * apply dec_stable in Hok as ->. apply IH.
    + unfold bind at 1. unfold ret at 1.
      rewrite decide_False by (intros H; by apply H). apply IH.
Qed.

Lemma handlers_return (env : Env) (name : string) (handler : TerminalCommand)
    (arguments : list string) (st : State) (e : CommandError) :
  (name, handler) ∈ registry env ->
  (handler arguments st).1 = Ret e ->
  e = OK \/ e = INVALID_ARGUMENT_NUMBER \/ e = INVALID_FILE_PATH \/
  e = UNABLE_TO_OPEN_NOTEPAD \/ e = INVALID_PID.
Proof.
  intros Hreg.
  destruct (registry_cases env name handler Hreg)
    as [->|[->|[->|[->|[->|[->| ->]]]]]].
  - unfold listDirContent. destruct (decide _); [intros [= <-]; tauto|].
    run. intros [= <-]. tauto.
  - unfold printFileContents. destruct (decide _) as [|Hlen]; [intros [= <-]; tauto|].
    destruct arguments as [|path [|]]; try (by destruct Hlen). run.
    destruct (is_regular_file env path); [|intros [= <-]; tauto].
    destruct (ifstream_opens env path); [|intros [= <-]; tauto].
    cbn [negb]. run. intros [= <-]. tauto.
  - unfold openNotepad. run.
    destruct (fork_ret env (forks st) =? -1); [intros [= <-]; tauto|].
    destruct (fork_ret env (forks st) =? 0); [|run; intros [= <-]; tauto].
    unfold execlp, exec. run.
    destruct (exec_replaces env _ _); cbn [fst]; [discriminate|intros [= <-]; tauto].
  - unfold killCommand. destruct (decide _) as [|Hlen]; [intros [= <-]; tauto|].
    destruct arguments as [|a [|]]; try (by destruct Hlen). run.
    destruct (stoi a) as [x|pid]; [discriminate|]. run.
    destruct (decide (pid ∉ pids st)); [intros [= <-]; tauto|].
    run. intros [= <-]. tauto.
  - unfold killAllCommand. destruct (decide _) as [|Hlen]; [intros [= <-]; tauto|].
    destruct arguments; [|by destruct Hlen].
    run. rewrite for_each_kill. run. intros [= <-]. tauto.
  - unfold showPids. destruct (decide _); [intros [= <-]; tauto|].
    run. intros [= <-]. tauto.
  - unfold niceCommand. destruct (decide _) as [|Hlen]; [intros [= <-]; tauto|].
    destruct arguments as [|a [|c [|]]]; try (by destruct Hlen). run.
    destruct (stoi a) as [x|prio]; [discriminate|]. run.
    destruct (createProcess env [c] prio st) as [[e'| | |] st']; try discriminate.
    intros [= <-]. tauto.
Qed.

Ltac in_list := repeat first [apply list_elem_of_here | apply list_elem_of_further].

(** X21. The values commands return: a built-in reached through the
    dispatcher returns [OK], [INVALID_ARGUMENT_NUMBER], [INVALID_FILE_PATH],
    [UNABLE_TO_OPEN_NOTEPAD] or [INVALID_PID], or the dispatcher answers
    [UNKNOWN_COMMAND]; the external launch returns [OK], [FORK_ERROR] or
    [INVALID_PROCESS_INPUT].  So no command returns [INVALID_ARGUMENT], and a
    built-in never returns an error of the launcher. *)
Theorem returned_errors (env : Env) (tokens : list string) (st : State)
    (e : CommandError) :
  ((executeCommand env tokens st).1 = Ret e ->
   e ∈ [OK; INVALID_ARGUMENT_NUMBER; UNKNOWN_COMMAND; INVALID_FILE_PATH;
        UNABLE_TO_OPEN_NOTEPAD; INVALID_PID]) /\
  ((createProcesses env tokens st).1 = Ret e ->
   e ∈ [OK; FORK_ERROR; INVALID_PROCESS_INPUT]).
Proof.
  split.
  - unfold executeCommand. destruct tokens as [|command arguments]; [discriminate|].
    run. unfold try_catch_out_of_range, at_command.
    change (drop 1 (command :: arguments)) with arguments.
    destruct (terminalCommands env !! command) as [handler|] eqn:Hreg.
    + run.
      pose proof (handlers_return env command handler arguments st) as Hret.
      destruct (handler arguments st) as [[e'|[]| |] st']; cbn [fst] in *;
        try discriminate.
      * intros [= <-].
        destruct (Hret e' (registry_lookup env command handler Hreg) eq_refl)
          as [->|[->|[->|[->| ->]]]]; in_list.
      * intros [= <-]. in_list.
    + intros [= <-]. in_list.
  - intros Hret. apply createProcesses_loop_returns in Hret.
    destruct Hret as [->|[->| ->]]; in_list.
Qed.

Lemma returned_errors_witness :
  INVALID_PID ∈ [OK; INVALID_ARGUMENT_NUMBER; UNKNOWN_COMMAND; INVALID_FILE_PATH;
                 UNABLE_TO_OPEN_NOTEPAD; INVALID_PID].
Proof.
  apply (returned_errors env_parent ["kill"; "5"] initial INVALID_PID).
  reflexivity.
Defined.

(** ** Spaces and stray text in a line *)

Lemma lookup_empty_name env : terminalCommands env !! "" = None.
Proof. reflexivity. Qed.

(** X22. A line that begins with a space has the empty string as its first
    token, which is no built-in: whatever follows, also the name of a
    built-in, the whole line goes to the external launch, with an empty
    program name. *)
Theorem leading_space_disables_builtins (env : Env) (rest : string) (st : State) :
  main_iteration env (String " " rest) st =
  (e <- createProcesses env ("" :: splitStringBySpace rest) ;;
   if decide (e <> OK) then print (OutError e) else ret tt) st.
Proof.
  unfold main_iteration. rewrite decide_False by done. rewrite split_space.
  assert (executeCommand env ("" :: splitStringBySpace rest) st
          = (Ret UNKNOWN_COMMAND, st)) as Hx.
  { unfold executeCommand. run. unfold try_catch_out_of_range, at_command.
    by rewrite lookup_empty_name. }
  unfold bind at 1. rewrite Hx. unfold bind at 1.
  by rewrite decide_True.
Qed.

Lemma digits_ignore_suffix (acc : option Z) (s : string) (c : ascii) (suffix : string) :
  digit c = None ->
  digits acc (s +:+ String c suffix) = digits acc s.
Proof.
  intros Hc. revert acc. induction s as [|d s IH]; intros acc.
  - change ("" +:+ String c suffix) with (String c suffix).
    cbn [digits]. by rewrite Hc.
  - change (String d s +:+ String c suffix) with (String d (s +:+ String c suffix)).
    cbn [digits]. destruct (digit d); [apply IH|done].
Qed.

Lemma skip_spaces_app (a rest : string) :
  skip_spaces a <> "" -> skip_spaces (a +:+ rest) = skip_spaces a +:+ rest.
Proof.
  induction a as [|d a IH]; [done|].
  change (String d a +:+ rest) with (String d (a +:+ rest)).
  cbn [skip_spaces]. destruct (isspace d); [exact IH|done].
Qed.

Lemma signed_app (b rest : string) :
  b <> "" -> signed (b +:+ rest) = ((signed b).1, (signed b).2 +:+ rest).
Proof.
  destruct b as [|d b]; [done|]. intros _.
  change (String d b +:+ rest) with (String d (b +:+ rest)).
  destruct d as [[] [] [] [] [] [] [] []]; reflexivity.
Qed.

Lemma stoi_ignores_suffix (a : string) (c : ascii) (suffix : string) (n : Z) :
  digit c = None -> stoi a = inr n -> stoi (a +:+ String c suffix) = inr n.
Proof.
  intros Hc Hstoi.
  assert (skip_spaces a <> "") as Hne.
  { intros Hempty. unfold stoi in Hstoi. rewrite Hempty in Hstoi. discriminate. }
  revert Hstoi. unfold stoi.
  rewrite skip_spaces_app, signed_app by done.
  destruct (signed (skip_spaces a)) as [negative body]. cbn [fst snd].
  by rewrite digits_ignore_suffix.
Qed.

(** X23. [kill] reads the integer at the front of its argument and ignores
    what follows it: with stray text after the digits it acts on the same
    identifier, and only the banner shows the text. *)
Theorem kill_ignores_trailing_text (a : string) (c : ascii) (suffix : string)
    (pid : Z) (st : State) :
  stoi a = inr pid -> digit c = None ->
  let r := killCommand [a] st in
  let r' := killCommand [a +:+ String c suffix] st in
  r'.1 = r.1 /\ pids r'.2 = pids r.2 /\
  (pid ∈ pids st -> EvKill pid ∈ trace r'.2).
Proof.
  intros Hstoi Hc r r'. subst r r'.
  pose proof (stoi_ignores_suffix a c suffix pid Hc Hstoi) as Hstoi'.
  destruct (decide (pid ∈ pids st)) as [Hin|Hnot].
  - rewrite (kill_run _ pid st Hstoi' Hin), (kill_run _ pid st Hstoi Hin).
    cbn [fst snd pids trace]. split; [done|]. split; [done|].
    intros _. apply elem_of_app. right.
    apply list_elem_of_further, list_elem_of_further, list_elem_of_here.
  - rewrite (kill_not_tracked _ pid st Hstoi' Hnot),
            (kill_not_tracked _ pid st Hstoi Hnot).
    cbn [fst snd]. split; [done|]. split; [done|]. intros Hin. by destruct Hnot.
Qed.

Lemma kill_ignores_trailing_text_witness :
  (killCommand ["1000abc"]
     {| pids := {[1000]}; forks := 1; launches := []; trace := [] |}).1
  = (killCommand ["1000"]
       {| pids := {[1000]}; forks := 1; launches := []; trace := [] |}).1.
Proof.
  apply (kill_ignores_trailing_text "1000" "a" "bc" 1000
           {| pids := {[1000]}; forks := 1; launches := []; trace := [] |});
    reflexivity.
Defined.

(** X24. [nice] in the shell, when [fork] succeeds: the new identifier is
    tracked, the priority read from the first argument is the one passed to
    [setpriority], without any check of its range, and [OK] is returned. *)
Theorem nice_sets_priority (env : Env) (p c : string) (prio : Z) (st : State) :
  stoi p = inr prio -> 0 < fork_ret env (forks st) ->
  let pid := fork_ret env (forks st) in
  niceCommand env [p; c] st =
  (Ret OK,
   {| pids := {[pid]} ∪ pids st; forks := S (forks st);
      launches := launches st ++ [([Some c; None], prio)];
      trace := trace st ++ [EvFork pid; EvSetPriority pid prio] |}).
Proof.
  intros Hstoi Hpos pid. subst pid.
  rewrite (nice_two_arguments env p c prio st Hstoi).
  unfold bind. by rewrite createProcess_parent.
Qed.

Lemma nice_sets_priority_witness :
  niceCommand env_parent ["1000"; "sleep"] initial =
  (Ret OK,
   {| pids := {[1000]} ∪ ∅; forks := 1;
      launches := [([Some "sleep"; None], 1000)];
      trace := [EvFork 1000; EvSetPriority 1000 1000] |}).
Proof.
  apply (nice_sets_priority env_parent "1000" "sleep" 1000 initial).
  - reflexivity.
  - cbn [fork_ret env_parent forks initial]. lia.
Defined.
